(** * Pokemon stat comparator: a model of [src/routes/+page.svelte]

    The component keeps five variables ([pokemonData], [selectedPokemon],
    [chartInstance], [searchTerm], [loading]) and talks to three things
    outside it: the network ([fetch]), the browser ([alert],
    [console.error]) and the chart library ([new Chart], [destroy]).

    The component variables and the outside world are threaded through a
    small state-and-exception monad.  A JavaScript exception keeps every
    assignment made before it was thrown, so the monad returns the state
    together with the outcome.  An [async] function is split at its
    [await]: the part that runs at the call, and the part that runs when
    the awaited promises settle.  The event loop of the page is a
    transition function over the component state and the list of
    suspended calls.

    Strings are byte strings; [toLowerCase] and [toUpperCase] act on the
    ASCII letters, which is all the names served by the API contain. *)

From Stdlib Require Import String Ascii Bool Arith ZArith Lia List Permutation.
From Stdlib Require Import DecimalString DecimalZ DecimalPos.
Import ListNotations.
Local Open Scope string_scope.
Local Open Scope list_scope.
Local Open Scope nat_scope.

(** ** Strings *)

Definition toLowerCaseChar (c : ascii) : ascii :=
  let n := nat_of_ascii c in
  if ((65 <=? n) && (n <=? 90))%nat then ascii_of_nat (n + 32) else c.

Definition toUpperCaseChar (c : ascii) : ascii :=
  let n := nat_of_ascii c in
  if ((97 <=? n) && (n <=? 122))%nat then ascii_of_nat (n - 32) else c.

Fixpoint toLowerCase (s : string) : string :=
  match s with
  | EmptyString => EmptyString
  | String c s' => String (toLowerCaseChar c) (toLowerCase s')
  end.

Fixpoint toUpperCase (s : string) : string :=
  match s with
  | EmptyString => EmptyString
  | String c s' => String (toUpperCaseChar c) (toUpperCase s')
  end.

(** [startsWith s t]: [t] is a prefix of [s]. *)
Fixpoint startsWith (s t : string) : bool :=
  match t, s with
  | EmptyString, _ => true
  | String _ _, EmptyString => false
  | String b t', String a s' => Ascii.eqb a b && startsWith s' t'
  end.

(** [s.includes(t)]: [t] occurs in [s] at some position. *)
Fixpoint includes (s t : string) : bool :=
  startsWith s t ||
  match s with
  | EmptyString => false
  | String _ s' => includes s' t
  end.

(** [s.charAt(0)]: the first character as a string, empty on the empty
    string. *)
Definition charAt0 (s : string) : string :=
  match s with
  | EmptyString => EmptyString
  | String c _ => String c EmptyString
  end.

(** [s.slice(1)]. *)
Definition slice1 (s : string) : string :=
  match s with
  | EmptyString => EmptyString
  | String _ s' => s'
  end.

Fixpoint dropChars (n : nat) (s : string) : string :=
  match n, s with
  | O, _ => s
  | S _, EmptyString => EmptyString
  | S n', String _ s' => dropChars n' s'
  end.

(** [s.replace(pat, rep)] with a string pattern: the first occurrence only. *)
Fixpoint replace (s pat rep : string) : string :=
  if startsWith s pat then String.append rep (dropChars (String.length pat) s)
  else match s with
       | EmptyString => EmptyString
       | String c s' => String c (replace s' pat rep)
       end.

(** ** Arrays *)

Fixpoint findIndex_from {A} (f : A -> bool) (l : list A) (i : Z) : Z :=
  match l with
  | [] => -1
  | x :: l' => if f x then i else findIndex_from f l' (i + 1)
  end.

(** [l.findIndex(f)]: the first index whose element satisfies [f], or -1. *)
Definition findIndex {A} (f : A -> bool) (l : list A) : Z :=
  findIndex_from f l 0.

(** How [slice] reads an index: negative ones count from the end, and
    everything is clamped to the array. *)
Definition relativeIndex (len k : Z) : Z :=
  if (k <? 0)%Z then Z.max (len + k) 0 else Z.min k len.

(** [l.slice(start, stop)]. *)
Definition slice {A} (l : list A) (start stop : Z) : list A :=
  let len := Z.of_nat (length l) in
  let a := relativeIndex len start in
  let b := relativeIndex len stop in
  firstn (Z.to_nat (b - a)) (skipn (Z.to_nat a) l).

(** [l.slice(start)]. *)
Definition sliceFrom {A} (l : list A) (start : Z) : list A :=
  slice l start (Z.of_nat (length l)).

(** [l.map((x, index) => f x index)] for a callback without effects. *)
Fixpoint mapIndexed_from {A B} (f : A -> nat -> B) (i : nat) (l : list A)
  : list B :=
  match l with
  | [] => []
  | x :: l' => f x i :: mapIndexed_from f (S i) l'
  end.

Definition mapIndexed {A B} (f : A -> nat -> B) (l : list A) : list B :=
  mapIndexed_from f 0 l.

(** ** Data *)

(** An element of [pokemonData]. *)
Record CatalogEntry := {
  id : Z;
  name : string;
  url : string
}.

(** [interface PokemonAPIResponse]: an element of [data.results]. *)
Record PokemonAPIResponse := {
  api_name : string;
  api_url : string
}.

(** An element of [data.stats] in a detail response:
    [{ stat: { name }, base_stat }]. *)
Record APIStat := {
  stat_stat_name : string;
  base_stat : Z
}.

(** An element of the [stats] array built by [fetchPokemonDetails]. *)
Record Stat := {
  stat_name : string;
  stat_value : Z
}.

(** What [fetchPokemonDetails] returns when it does not return [null]. *)
Record PokemonDetails := {
  details_name : string;
  details_stats : list Stat
}.

Record Dataset := {
  label : string;
  data : list Z;
  backgroundColor : string;
  borderColor : string;
  borderWidth : Z
}.

Record ChartData := {
  labels : list string;
  datasets : list Dataset
}.

(** The second argument of [new Chart]. *)
Record ChartConfig := {
  chart_type : string;
  chart_data : ChartData;
  r_beginAtZero : bool;
  r_max : Z
}.

(** A chart object of the library. *)
Definition Chart := nat.

(** What the network answers to the catalog request: the [results] array,
    or [None] when [fetch] or [response.json()] rejects or the body has
    no such array. *)
Definition CatalogResult := option (list PokemonAPIResponse).

(** What the network answers to one detail request: the [stats] array, or
    [None] when anything inside the [try] of [fetchPokemonDetails]
    throws. *)
Definition DetailResult := option (list APIStat).

(** The answers to the requests of one [updateChart] call: one for each
    request, in the order they were sent, with the address it went to. *)
Definition Network := nat -> string -> DetailResult.

Inductive JsError :=
| TypeError.

(** What the component does to the outside world. *)
Inductive Event :=
| Fetch (address : string)
| Alert (message : string)
| ConsoleError (message : string)
| ChartDestroy (c : Chart)
| ChartNew (c : Chart) (config : ChartConfig)
| UnhandledRejection (e : JsError).

(** The variables of the component, the chart objects that were created
    and not destroyed, and everything done to the outside world so far. *)
Record State := {
  pokemonData : list CatalogEntry;
  selectedPokemon : list CatalogEntry;
  chartInstance : option Chart;
  searchTerm : string;
  loading : bool;
  liveCharts : list Chart;
  nextChart : Chart;
  log : list Event
}.

Definition initial : State := {|
  pokemonData := [];
  selectedPokemon := [];
  chartInstance := None;
  searchTerm := "";
  loading := false;
  liveCharts := [];
  nextChart := 0;
  log := []
|}.

(** ** The monad *)

Inductive Outcome (A : Type) :=
| Returned (a : A)
| Thrown (e : JsError).
Arguments Returned {A} a.
Arguments Thrown {A} e.

Definition M (A : Type) : Type := State -> Outcome A * State.

Definition ret {A} (a : A) : M A := fun s => (Returned a, s).

Definition bind {A B} (c : M A) (k : A -> M B) : M B :=
  fun s =>
    match c s with
    | (Returned a, s') => k a s'
    | (Thrown e, s') => (Thrown e, s')
    end.

Definition throw {A} (e : JsError) : M A := fun s => (Thrown e, s).

(** [try { c } catch (error) { handler }]. *)
Definition try_catch {A} (c : M A) (handler : JsError -> M A) : M A :=
  fun s =>
    match c s with
    | (Returned a, s') => (Returned a, s')
    | (Thrown e, s') => handler e s'
    end.

(** [try { c } finally { final }], for a [final] block that does not
    throw. *)
Definition try_finally {A} (c : M A) (final : M unit) : M A :=
  fun s =>
    match c s with
    | (r, s') => (r, snd (final s'))
    end.

Declare Scope js_scope.
Delimit Scope js_scope with js.
Notation "x <- c ;; k" := (bind c (fun x => k))
  (at level 61, c at next level, right associativity) : js_scope.
Notation "c ;; k" := (bind c (fun _ => k))
  (at level 61, right associativity) : js_scope.
Local Open Scope js_scope.

Definition get : M State := fun s => (Returned s, s).
Definition modify (f : State -> State) : M unit := fun s => (Returned tt, f s).

Definition exec {A} (c : M A) (s : State) : State := snd (c s).
Definition outcome {A} (c : M A) (s : State) : Outcome A := fst (c s).

Definition with_pokemonData (v : list CatalogEntry) (s : State) : State :=
  {| pokemonData := v; selectedPokemon := selectedPokemon s;
     chartInstance := chartInstance s; searchTerm := searchTerm s;
     loading := loading s; liveCharts := liveCharts s;
     nextChart := nextChart s; log := log s |}.

Definition with_selectedPokemon (v : list CatalogEntry) (s : State) : State :=
  {| pokemonData := pokemonData s; selectedPokemon := v;
     chartInstance := chartInstance s; searchTerm := searchTerm s;
     loading := loading s; liveCharts := liveCharts s;
     nextChart := nextChart s; log := log s |}.

Definition with_chartInstance (v : option Chart) (s : State) : State :=
  {| pokemonData := pokemonData s; selectedPokemon := selectedPokemon s;
     chartInstance := v; searchTerm := searchTerm s;
     loading := loading s; liveCharts := liveCharts s;
     nextChart := nextChart s; log := log s |}.

Definition with_searchTerm (v : string) (s : State) : State :=
  {| pokemonData := pokemonData s; selectedPokemon := selectedPokemon s;
     chartInstance := chartInstance s; searchTerm := v;
     loading := loading s; liveCharts := liveCharts s;
     nextChart := nextChart s; log := log s |}.

Definition with_loading (v : bool) (s : State) : State :=
  {| pokemonData := pokemonData s; selectedPokemon := selectedPokemon s;
     chartInstance := chartInstance s; searchTerm := searchTerm s;
     loading := v; liveCharts := liveCharts s;
     nextChart := nextChart s; log := log s |}.

Definition with_charts (live : list Chart) (next : Chart) (s : State) : State :=
  {| pokemonData := pokemonData s; selectedPokemon := selectedPokemon s;
     chartInstance := chartInstance s; searchTerm := searchTerm s;
     loading := loading s; liveCharts := live;
     nextChart := next; log := log s |}.

Definition with_log (v : list Event) (s : State) : State :=
  {| pokemonData := pokemonData s; selectedPokemon := selectedPokemon s;
     chartInstance := chartInstance s; searchTerm := searchTerm s;
     loading := loading s; liveCharts := liveCharts s;
     nextChart := nextChart s; log := v |}.

(** Record something done to the outside world. *)
Definition emit (e : Event) : M unit :=
  modify (fun s => with_log (log s ++ [e]) s).

(** [l.map((x, index) => f x index)] for a callback that may throw: the
    elements are visited from the left and the first exception ends the
    loop. *)
Fixpoint mapM_from {A B} (f : A -> nat -> M B) (i : nat) (l : list A)
  : M (list B) :=
  match l with
  | [] => ret []
  | x :: l' =>
      y <- f x i ;;
      ys <- mapM_from f (S i) l' ;;
      ret (y :: ys)
  end.

Definition mapM {A B} (f : A -> nat -> M B) (l : list A) : M (list B) :=
  mapM_from f 0 l.

(** ** The outside world *)

Definition fetch (address : string) : M unit := emit (Fetch address).
Definition alert (message : string) : M unit := emit (Alert message).
Definition console_error (message : string) : M unit :=
  emit (ConsoleError message).

(** [new Chart(ctx, config)]: the library hands out a chart object that
    was never handed out before, and the object is live until its
    [destroy] is called. *)
Definition new_Chart (config : ChartConfig) : M Chart :=
  s <- get ;;
  let c := nextChart s in
  modify (with_charts (liveCharts s ++ [c]) (S c)) ;;
  emit (ChartNew c config) ;;
  ret c.

(** [c.destroy()]. *)
Definition destroy (c : Chart) : M unit :=
  s <- get ;;
  modify (with_charts (List.remove Nat.eq_dec c (liveCharts s))
                      (nextChart s)) ;;
  emit (ChartDestroy c).

(** ** The component *)

Definition chartColors : list string := [
  "rgba(255, 99, 132, 0.7)";
  "rgba(54, 162, 235, 0.7)";
  "rgba(255, 206, 86, 0.7)";
  "rgba(75, 192, 192, 0.7)";
  "rgba(153, 102, 255, 0.7)";
  "rgba(255, 159, 64, 0.7)"
].

Definition catalogAddress : string :=
  "https://pokeapi.co/api/v2/pokemon?limit=151".

(** [fetchPokemonList], from the call to its first [await]. *)
Definition fetchPokemonList_call : M unit :=
  modify (with_loading true) ;;
  fetch catalogAddress.

(** [fetchPokemonList], from the moment the request settles to the end:
    the rest of the [try], the [catch] and the [finally]. *)
Definition fetchPokemonList_settle (response : CatalogResult) : M unit :=
  try_finally
    (try_catch
       (match response with
        | Some results =>
            modify (with_pokemonData
              (mapIndexed (fun pokemon index =>
                 {| id := Z.of_nat index + 1;
                    name := api_name pokemon;
                    url := api_url pokemon |}) results))
        | None => throw TypeError
        end)
       (fun error => console_error "Error al obtener la lista de Pokémon:"))
    (modify (with_loading false)).

(** [fetchPokemonList] when nothing else runs while it waits. *)
Definition fetchPokemonList (response : CatalogResult) : M unit :=
  fetchPokemonList_call ;;
  fetchPokemonList_settle response.

(** [fetchPokemonDetails], from the call to its first [await]. *)
Definition fetchPokemonDetails_call (pokemon : CatalogEntry) : M unit :=
  fetch (url pokemon).

(** [fetchPokemonDetails], from the moment the request settles to the
    end.  [None] is the [null] of the [catch] block. *)
Definition fetchPokemonDetails_settle (pokemon : CatalogEntry)
    (response : DetailResult) : M (option PokemonDetails) :=
  try_catch
    (match response with
     | Some data_stats =>
         ret (Some {| details_name := name pokemon;
                      details_stats :=
                        map (fun stat =>
                               {| stat_name := stat_stat_name stat;
                                  stat_value := base_stat stat |})
                            data_stats |})
     | None => throw TypeError
     end)
    (fun error =>
       console_error
         (String.append "Error al obtener detalles de "
            (String.append (name pokemon) ":")) ;;
       ret None).

Definition chartLabels : list string :=
  ["HP"; "Ataque"; "Defensa"; "Ataque Esp."; "Defensa Esp."; "Velocidad"].

(** The callback of [pokemonDetails.map] in [updateChart].  Reading
    [pokemon.name] on [null] throws, and so would [replace] on a colour
    that is not in the palette. *)
Definition dataset_of (pokemon : option PokemonDetails) (index : nat)
  : M Dataset :=
  match pokemon with
  | None => throw TypeError
  | Some pokemon =>
      match nth_error chartColors (index mod List.length chartColors) with
      | None => throw TypeError
      | Some color =>
          ret {| label :=
                   String.append
                     (toUpperCase (charAt0 (details_name pokemon)))
                     (slice1 (details_name pokemon));
                 data := map (fun stat => stat_value stat)
                             (details_stats pokemon);
                 backgroundColor := color;
                 borderColor := replace color "0.7" "1";
                 borderWidth := 1 |}
      end
  end.

(** [updateChart], from the call to its [await]: [None] when it returned
    at once, otherwise the entries whose details it is waiting for. *)
Definition updateChart_call : M (option (list CatalogEntry)) :=
  s <- get ;;
  if List.length (selectedPokemon s) =? 0 then ret None
  else
    modify (with_loading true) ;;
    mapM (fun pokemon _ => fetchPokemonDetails_call pokemon)
         (selectedPokemon s) ;;
    ret (Some (selectedPokemon s)).

(** [updateChart], from the moment every request has settled to the
    end.  [document.getElementById] only looks the canvas up and is left
    out; whatever it finds, [new Chart] returns a chart object. *)
Definition updateChart_settle (requested : list CatalogEntry)
    (net : Network) : M unit :=
  pokemonDetails <-
    mapM (fun pokemon index =>
            fetchPokemonDetails_settle pokemon (net index (url pokemon)))
         requested ;;
  chartDatasets <- mapM dataset_of pokemonDetails ;;
  let chartData := {| labels := chartLabels; datasets := chartDatasets |} in
  s <- get ;;
  match chartInstance s with
  | Some c => destroy c
  | None => ret tt
  end ;;
  c <- new_Chart {| chart_type := "radar";
                    chart_data := chartData;
                    r_beginAtZero := true;
                    r_max := 150 |} ;;
  modify (with_chartInstance (Some c)) ;;
  modify (with_loading false).

(** [updateChart] when nothing else runs while it waits. *)
Definition updateChart (net : Network) : M unit :=
  waiting <- updateChart_call ;;
  match waiting with
  | None => ret tt
  | Some requested => updateChart_settle requested net
  end.

(** The reactive declaration [$: filteredPokemon = ...]. *)
Definition filteredPokemon (pokemonData : list CatalogEntry)
    (searchTerm : string) : list CatalogEntry :=
  filter (fun pokemon =>
            includes (toLowerCase (name pokemon)) (toLowerCase searchTerm))
         pokemonData.

Definition capacityWarning : string :=
  "Puedes seleccionar un máximo de 6 Pokémon para comparar".

(** [togglePokemon] up to the call of [updateChart] on its last line. *)
Definition togglePokemon_selection (pokemon : CatalogEntry) : M unit :=
  s <- get ;;
  let index :=
    findIndex (fun p => Z.eqb (id p) (id pokemon)) (selectedPokemon s) in
  if (index >=? 0)%Z then
    modify (with_selectedPokemon
              (slice (selectedPokemon s) 0 index ++
               sliceFrom (selectedPokemon s) (index + 1)))
  else if List.length (selectedPokemon s) <? 6 then
    modify (with_selectedPokemon (selectedPokemon s ++ [pokemon]))
  else
    alert capacityWarning.

(** [togglePokemon].  The promise of [updateChart] is not awaited, so the
    function returns when [updateChart] reaches its [await]; the result
    says what that call is waiting for. *)
Definition togglePokemon_call (pokemon : CatalogEntry)
  : M (option (list CatalogEntry)) :=
  togglePokemon_selection pokemon ;;
  updateChart_call.

(** [togglePokemon] when its [updateChart] runs to the end before
    anything else happens. *)
Definition togglePokemon (pokemon : CatalogEntry) (net : Network) : M unit :=
  togglePokemon_selection pokemon ;;
  updateChart net.

Definition isPokemonSelected (pokemon : CatalogEntry)
    (selectedPokemon : list CatalogEntry) : bool :=
  existsb (fun p => Z.eqb (id p) (id pokemon)) selectedPokemon.

(** What the [chart-container] block of the markup shows. *)
Inductive ChartContainer :=
| LoadingText
| NoDataText
| Canvas.

Definition chart_container (s : State) : ChartContainer :=
  if loading s then LoadingText
  else if List.length (selectedPokemon s) =? 0 then NoDataText
  else Canvas.

(** ** The page as a transition system *)

(** A call suspended at its [await]. *)
Inductive Suspended :=
| AwaitCatalog
| AwaitDetails (requested : list CatalogEntry).

Record Page := {
  component : State;
  suspended : list Suspended
}.

Inductive Action :=
| Mount
| Input (term : string)
| Click (pokemon : CatalogEntry)
| CatalogSettles (k : nat) (response : CatalogResult)
| DetailsSettle (k : nat) (net : Network).

Definition start : Page := {| component := initial; suspended := [] |}.

(** Run a piece of code to its end; an exception nobody catches is
    reported by the browser and the state stays as the code left it. *)
Definition run_task {A} (c : M A) (s : State) : State :=
  match c s with
  | (Returned _, s') => s'
  | (Thrown e, s') => exec (emit (UnhandledRejection e)) s'
  end.

Fixpoint remove_nth {A} (k : nat) (l : list A) : list A :=
  match k, l with
  | _, [] => []
  | O, _ :: l' => l'
  | S k', x :: l' => x :: remove_nth k' l'
  end.

(** One turn of the event loop.  An action that cannot happen in the
    current state (no such suspended call) leaves the page as it is. *)
Definition step (a : Action) (p : Page) : Page :=
  match a with
  | Mount =>
      {| component := run_task fetchPokemonList_call (component p);
         suspended := suspended p ++ [AwaitCatalog] |}
  | Input term =>
      {| component := with_searchTerm term (component p);
         suspended := suspended p |}
  | Click pokemon =>
      match togglePokemon_call pokemon (component p) with
      | (Returned (Some requested), s') =>
          {| component := s';
             suspended := suspended p ++ [AwaitDetails requested] |}
      | (Returned None, s') =>
          {| component := s'; suspended := suspended p |}
      | (Thrown e, s') =>
          {| component := exec (emit (UnhandledRejection e)) s';
             suspended := suspended p |}
      end
  | CatalogSettles k response =>
      match nth_error (suspended p) k with
      | Some AwaitCatalog =>
          {| component :=
               run_task (fetchPokemonList_settle response) (component p);
             suspended := remove_nth k (suspended p) |}
      | _ => p
      end
  | DetailsSettle k net =>
      match nth_error (suspended p) k with
      | Some (AwaitDetails requested) =>
          {| component :=
               run_task (updateChart_settle requested net) (component p);
             suspended := remove_nth k (suspended p) |}
      | _ => p
      end
  end.

Definition run (actions : list Action) (p : Page) : Page :=
  fold_left (fun p a => step a p) actions p.

(** * Vocabulary of the properties *)

(** ** The selection *)

(** The test of [findIndex] in [togglePokemon]. *)
Definition sameId (e : CatalogEntry) (p : CatalogEntry) : bool :=
  Z.eqb (id p) (id e).

(** The three ways a toggle can go, as the selection before, the
    selection after and whether the warning was shown. *)
Inductive toggled (e : CatalogEntry) (sel : list CatalogEntry)
  : list CatalogEntry -> bool -> Prop :=
| toggled_removed l1 x l2 :
    sel = l1 ++ x :: l2 ->
    (forall p, In p l1 -> id p <> id e) ->
    id x = id e ->
    toggled e sel (l1 ++ l2) false
| toggled_appended :
    (forall p, In p sel -> id p <> id e) ->
    List.length sel < 6 ->
    toggled e sel (sel ++ [e]) false
| toggled_rejected :
    (forall p, In p sel -> id p <> id e) ->
    6 <= List.length sel ->
    toggled e sel sel true.

(** The selection holds at most six entries, no two with the same id. *)
Definition wellFormed (sel : list CatalogEntry) : Prop :=
  List.length sel <= 6 /\ NoDup (map id sel).

(** ** Rendering *)

(** The requests of one render. *)
Definition fetchEvents (l : list CatalogEntry) : list Event :=
  map (fun pokemon => Fetch (url pokemon)) l.

(** What [fetchPokemonDetails] returns for one answer of the network. *)
Definition details_of (net : Network) (pokemon : CatalogEntry) (index : nat)
  : option PokemonDetails :=
  match net index (url pokemon) with
  | Some data_stats =>
      Some {| details_name := name pokemon;
              details_stats :=
                map (fun stat => {| stat_name := stat_stat_name stat;
                                    stat_value := base_stat stat |})
                    data_stats |}
  | None => None
  end.

(** What [fetchPokemonDetails] reports for one answer of the network. *)
Definition errors_of (net : Network) (pokemon : CatalogEntry) (index : nat)
  : list Event :=
  match net index (url pokemon) with
  | Some _ => []
  | None =>
      [ConsoleError (String.append "Error al obtener detalles de "
                       (String.append (name pokemon) ":"))]
  end.

(** The dataset drawn for one fetched Pokemon at one position. *)
Definition dataset_for (pokemon : PokemonDetails) (index : nat) : Dataset :=
  {| label := String.append (toUpperCase (charAt0 (details_name pokemon)))
                            (slice1 (details_name pokemon));
     data := map stat_value (details_stats pokemon);
     backgroundColor :=
       nth (index mod List.length chartColors) chartColors "";
     borderColor :=
       replace (nth (index mod List.length chartColors) chartColors "")
               "0.7" "1";
     borderWidth := 1 |}.

(** The datasets of a list of fetch results: none as soon as one result
    is [null]. *)
Fixpoint datasets_from (i : nat) (l : list (option PokemonDetails))
  : option (list Dataset) :=
  match l with
  | [] => Some []
  | None :: _ => None
  | Some pokemon :: l' =>
      match datasets_from (S i) l' with
      | Some ds => Some (dataset_for pokemon i :: ds)
      | None => None
      end
  end.

(** The configuration [updateChart] passes to [new Chart]. *)
Definition radar (ds : list Dataset) : ChartConfig :=
  {| chart_type := "radar";
     chart_data := {| labels := chartLabels; datasets := ds |};
     r_beginAtZero := true;
     r_max := 150 |}.

(** The state [updateChart] leaves when it gets as far as drawing [ds],
    from the state [s] it was in when the requests settled; [errors] is
    what [fetchPokemonDetails] reported. *)
Definition drawn (ds : list Dataset) (errors : list Event) (s : State)
  : State :=
  {| pokemonData := pokemonData s;
     selectedPokemon := selectedPokemon s;
     chartInstance := Some (nextChart s);
     searchTerm := searchTerm s;
     loading := false;
     liveCharts :=
       match chartInstance s with
       | Some c => List.remove Nat.eq_dec c (liveCharts s)
       | None => liveCharts s
       end ++ [nextChart s];
     nextChart := S (nextChart s);
     log :=
       match chartInstance s with
       | Some c => (log s ++ errors) ++ [ChartDestroy c]
       | None => log s ++ errors
       end ++ [ChartNew (nextChart s) (radar ds)] |}.

(** What was done to the outside world between two states of one run. *)
Definition events_since (s s' : State) : list Event :=
  skipn (List.length (log s)) (log s').

(** ** Sample data *)

Definition entry (n : Z) (nm : string) : CatalogEntry :=
  {| id := n;
     name := nm;
     url := String.append "https://pokeapi.co/api/v2/pokemon/" nm |}.

Definition bulbasaur : CatalogEntry := entry 1 "bulbasaur".
Definition ivysaur : CatalogEntry := entry 2 "ivysaur".
Definition venusaur : CatalogEntry := entry 3 "venusaur".
Definition charmander : CatalogEntry := entry 4 "charmander".
Definition charmeleon : CatalogEntry := entry 5 "charmeleon".
Definition charizard : CatalogEntry := entry 6 "charizard".
Definition squirtle : CatalogEntry := entry 7 "squirtle".

Definition firstSix : list CatalogEntry :=
  [bulbasaur; ivysaur; venusaur; charmander; charmeleon; charizard].

(** A detail response with the six stats of Bulbasaur. *)
Definition bulbasaurStats : list APIStat :=
  [ {| stat_stat_name := "hp"; base_stat := 45 |};
    {| stat_stat_name := "attack"; base_stat := 49 |};
    {| stat_stat_name := "defense"; base_stat := 49 |};
    {| stat_stat_name := "special-attack"; base_stat := 65 |};
    {| stat_stat_name := "special-defense"; base_stat := 65 |};
    {| stat_stat_name := "speed"; base_stat := 45 |} ].

(** A network on which every detail request succeeds. *)
Definition netUp : Network := fun _ _ => Some bulbasaurStats.

(** A network on which every detail request fails. *)
Definition netDown : Network := fun _ _ => None.

(** A network on which only the second request of a render fails. *)
Definition netSecondFails : Network :=
  fun index _ => if index =? 1 then None else Some bulbasaurStats.

(** ** Vocabulary of the chart properties *)

(** The events that create or release a chart. *)
Definition chartEvent (ev : Event) : bool :=
  match ev with
  | ChartDestroy _ | ChartNew _ _ => true
  | _ => false
  end.

(** The charts that are live after a piece of the log, from those that
    were live before it: created and not yet destroyed. *)
Fixpoint liveAfter (evs : list Event) (live : list Chart) : list Chart :=
  match evs with
  | [] => live
  | ChartNew c _ :: evs' => liveAfter evs' (live ++ [c])
  | ChartDestroy c :: evs' => liveAfter evs' (List.remove Nat.eq_dec c live)
  | _ :: evs' => liveAfter evs' live
  end.

(** The stats [fetchPokemonDetails] builds from an answer. *)
Definition fetched (net : Network) (pokemon : CatalogEntry) (index : nat)
  : PokemonDetails :=
  {| details_name := name pokemon;
     details_stats :=
       match net index (url pokemon) with
       | Some data_stats =>
           map (fun stat => {| stat_name := stat_stat_name stat;
                               stat_value := base_stat stat |})
               data_stats
       | None => []
       end |}.

(** The chart the component holds, as a list. *)
Definition chartHeld (s : State) : list Chart :=
  match chartInstance s with
  | Some c => [c]
  | None => []
  end.

(** A log in which at no moment two charts are live, and in which a chart
    is only created when none is live. *)
Definition orderly (evs : list Event) : Prop :=
  forall before after,
    evs = before ++ after ->
    List.length (liveAfter before []) <= 1 /\
    (forall c config rest,
       after = ChartNew c config :: rest -> liveAfter before [] = []).

(** What a piece of code may do to the charts: nothing, or release the
    chart held, if any, and then create the next one and hold it. *)
Inductive chartStep (s s' : State) : Prop :=
| chartStep_quiet evs :
    Forall (fun ev => chartEvent ev = false) evs ->
    log s' = log s ++ evs ->
    chartInstance s' = chartInstance s ->
    liveCharts s' = liveCharts s ->
    chartStep s s'
| chartStep_redraw evs config :
    Forall (fun ev => chartEvent ev = false) evs ->
    log s' =
      match chartInstance s with
      | Some c => (log s ++ evs) ++ [ChartDestroy c]
      | None => log s ++ evs
      end ++ [ChartNew (nextChart s) config] ->
    chartInstance s' = Some (nextChart s) ->
    liveCharts s' =
      match chartInstance s with
      | Some c => List.remove Nat.eq_dec c (liveCharts s)
      | None => liveCharts s
      end ++ [nextChart s] ->
    chartStep s s'.

(** The charts of the library and of the log are the chart the component
    holds, and the log is orderly. *)
Definition chartsInOrder (s : State) : Prop :=
  liveCharts s = chartHeld s /\
  liveAfter (log s) [] = chartHeld s /\
  orderly (log s).

(** ** Vocabulary of the search filter *)




(** [result] holds exactly the entries of [catalog] that satisfy [P], in
    the order of [catalog]. *)
Inductive selects (P : CatalogEntry -> Prop)
  : list CatalogEntry -> list CatalogEntry -> Prop :=
| selects_nil : selects P [] []
| selects_keep e catalog result :
    P e -> selects P catalog result ->
    selects P (e :: catalog) (e :: result)
| selects_skip e catalog result :
    ~ P e -> selects P catalog result ->
    selects P (e :: catalog) result.

(** * The rest of the component *)







(** How a template literal prints an integer below 10^21: in decimal,
    with a minus sign when negative. *)
Definition numberToString (n : Z) : string :=
  NilZero.string_of_int (Z.to_int n).

(** The address of the picture of an entry in the list of the markup. *)
Definition spriteAddress (pokemon : CatalogEntry) : string :=
  String.append
    "https://raw.githubusercontent.com/PokeAPI/sprites/master/sprites/pokemon/"
    (String.append (numberToString (id pokemon)) ".png").

(** ** Vocabulary of the further properties *)

(** The ids [fetchPokemonList] gives to a catalog of [n] entries. *)
Definition numbered (n : nat) : list Z :=
  map (fun index => (Z.of_nat index + 1)%Z) (seq 0 n).


(** A chart configuration as [updateChart] builds it for one to six
    entries: a radar scaled from 0 to 150, the six axis labels, and a
    colour of its own for every dataset. *)
Definition tidyChart (config : ChartConfig) : Prop :=
  chart_type config = "radar" /\
  r_beginAtZero config = true /\
  r_max config = 150%Z /\
  labels (chart_data config) = chartLabels /\
  1 <= List.length (datasets (chart_data config)) <= 6 /\
  NoDup (map backgroundColor (datasets (chart_data config))) /\
  NoDup (map borderColor (datasets (chart_data config))).

(** Every suspended render waits for one to six entries, and every chart
    created so far is tidy. *)
Definition pageTidy (p : Page) : Prop :=
  wellFormed (selectedPokemon (component p)) /\
  (forall requested,
     In (AwaitDetails requested) (suspended p) ->
     1 <= List.length requested <= 6) /\
  (forall c config,
     In (ChartNew c config) (log (component p)) -> tidyChart config).

(** The test that keeps the entries with another id than [e]. *)
Definition otherId (e : CatalogEntry) (p : CatalogEntry) : bool :=
  negb (Z.eqb (id p) (id e)).

(** * Properties *)

(** ** Arrays *)

Lemma findIndex_from_found {A} (f : A -> bool) (l1 : list A) x l2 i :
  Forall (fun y => f y = false) l1 -> f x = true ->
  findIndex_from f (l1 ++ x :: l2) i = (i + Z.of_nat (List.length l1))%Z.
Proof.
  intros Hl1 Hx. revert i.
  induction Hl1 as [|y l1 Hy _ IH]; intros i; simpl.
  - rewrite Hx. lia.
  - rewrite Hy, IH. lia.
Qed.

Lemma findIndex_from_absent {A} (f : A -> bool) (l : list A) i :
  Forall (fun y => f y = false) l -> findIndex_from f l i = (-1)%Z.
Proof.
  intros Hl. revert i.
  induction Hl as [|y l Hy _ IH]; intros i; simpl; [reflexivity|].
  rewrite Hy. apply IH.
Qed.

(** A list either has no element satisfying [f], or splits at the first
    one that does. *)
Lemma first_split {A} (f : A -> bool) (l : list A) :
  Forall (fun y => f y = false) l \/
  exists l1 x l2,
    l = l1 ++ x :: l2 /\ Forall (fun y => f y = false) l1 /\ f x = true.
Proof.
  induction l as [|y l IH].
  - left. constructor.
  - destruct (f y) eqn:Hy.
    + right. exists [], y, l. repeat split; auto.
    + destruct IH as [IH | (l1 & x & l2 & -> & Hl1 & Hx)].
      * left. constructor; assumption.
      * right. exists (y :: l1), x, l2. repeat split; auto.
Qed.

Lemma slice_before {A} (l1 : list A) x l2 :
  slice (l1 ++ x :: l2) 0 (Z.of_nat (List.length l1)) = l1.
Proof.
  unfold slice, relativeIndex.
  rewrite length_app. simpl List.length.
  replace (0 <? 0)%Z with false by reflexivity.
  destruct (Z.ltb_spec (Z.of_nat (List.length l1)) 0) as [H|_]; [lia|].
  rewrite Z.min_l by lia. rewrite Z.min_l by lia.
  simpl skipn. rewrite Z.sub_0_r, Nat2Z.id.
  rewrite firstn_app, firstn_all, Nat.sub_diag. simpl. apply app_nil_r.
Qed.

Lemma sliceFrom_after {A} (l1 : list A) x l2 :
  sliceFrom (l1 ++ x :: l2) (Z.of_nat (List.length l1) + 1) = l2.
Proof.
  unfold sliceFrom, slice, relativeIndex.
  rewrite length_app. simpl List.length.
  destruct (Z.ltb_spec (Z.of_nat (List.length l1) + 1) 0) as [H|_]; [lia|].
  destruct (Z.ltb_spec (Z.of_nat (List.length l1 + S (List.length l2))) 0)
    as [H|_]; [lia|].
  rewrite Z.min_l by lia. rewrite Z.min_l by lia.
  replace (Z.to_nat (Z.of_nat (List.length l1) + 1)) with (S (List.length l1))
    by lia.
  replace (Z.to_nat _) with (List.length l2) by lia.
  replace (l1 ++ x :: l2) with ((l1 ++ [x]) ++ l2)
    by (rewrite <- app_assoc; reflexivity).
  rewrite skipn_app.
  replace (List.length (l1 ++ [x])) with (S (List.length l1))
    by (rewrite length_app; simpl; lia).
  rewrite skipn_all2 by (rewrite length_app; simpl; lia).
  rewrite Nat.sub_diag. simpl. apply firstn_all.
Qed.

Lemma sameId_false_iff e l :
  Forall (fun p => sameId e p = false) l <->
  (forall p, In p l -> id p <> id e).
Proof.
  rewrite Forall_forall. unfold sameId.
  split; intros H p Hp; specialize (H p Hp).
  - apply Z.eqb_neq. assumption.
  - apply Z.eqb_neq. assumption.
Qed.

Lemma togglePokemon_selection_spec e s :
  exists sel' warned,
    toggled e (selectedPokemon s) sel' warned /\
    togglePokemon_selection e s =
      (Returned tt,
       if warned then with_log (log s ++ [Alert capacityWarning]) s
       else with_selectedPokemon sel' s).
Proof.
  unfold togglePokemon_selection, bind, get.
  fold (sameId e).
  destruct (first_split (sameId e) (selectedPokemon s))
    as [Habs | (l1 & x & l2 & Hsel & Hl1 & Hx)].
  - unfold findIndex. rewrite findIndex_from_absent by assumption.
    replace (-1 >=? 0)%Z with false by reflexivity.
    pose proof (proj1 (sameId_false_iff e _) Habs) as Hids.
    destruct (Nat.ltb_spec (List.length (selectedPokemon s)) 6).
    + exists (selectedPokemon s ++ [e]), false. split; [|reflexivity].
      constructor; assumption.
    + exists (selectedPokemon s), true. split; [|reflexivity].
      constructor; assumption.
  - unfold findIndex. rewrite Hsel.
    rewrite findIndex_from_found by assumption.
    rewrite Z.add_0_l.
    destruct (Z.geb_spec (Z.of_nat (List.length l1)) 0) as [_|H]; [|lia].
    rewrite slice_before, sliceFrom_after.
    exists (l1 ++ l2), false. split; [|reflexivity].
    apply toggled_removed with (x := x).
    + reflexivity.
    + exact (proj1 (sameId_false_iff e _) Hl1).
    + apply Z.eqb_eq. assumption.
Qed.

(** ** Running the code *)

Lemma with_log_same s : with_log (log s ++ []) s = s.
Proof. destruct s. unfold with_log. simpl. rewrite app_nil_r. reflexivity. Qed.

Lemma with_log_twice s evs evs' :
  with_log (log (with_log (log s ++ evs) s) ++ evs') (with_log (log s ++ evs) s)
  = with_log (log s ++ evs ++ evs') s.
Proof. unfold with_log. simpl. rewrite app_assoc. reflexivity. Qed.

Lemma fetch_calls_run (l : list CatalogEntry) i s :
  mapM_from (fun pokemon _ => fetchPokemonDetails_call pokemon) i l s =
  (Returned (map (fun _ => tt) l), with_log (log s ++ fetchEvents l) s).
Proof.
  revert i s. induction l as [|p l IH]; intros i s; simpl.
  - unfold ret. rewrite with_log_same. reflexivity.
  - unfold bind at 1. unfold fetchPokemonDetails_call, fetch, emit, modify.
    unfold bind at 1. rewrite IH. unfold ret.
    rewrite (with_log_twice s [Fetch (url p)]). reflexivity.
Qed.

Lemma updateChart_call_run s :
  updateChart_call s =
  if List.length (selectedPokemon s) =? 0 then (Returned None, s)
  else (Returned (Some (selectedPokemon s)),
        with_log (log s ++ fetchEvents (selectedPokemon s))
                 (with_loading true s)).
Proof.
  unfold updateChart_call, bind at 1, get.
  destruct (List.length (selectedPokemon s) =? 0); [reflexivity|].
  unfold bind at 1, modify. unfold bind at 1, mapM.
  rewrite fetch_calls_run. reflexivity.
Qed.

Lemma fetches_settle_run net (l : list CatalogEntry) i s :
  mapM_from (fun pokemon index =>
               fetchPokemonDetails_settle pokemon (net index (url pokemon)))
            i l s =
  (Returned (mapIndexed_from (details_of net) i l),
   with_log (log s ++ concat (mapIndexed_from (errors_of net) i l)) s).
Proof.
  revert i s. induction l as [|p l IH]; intros i s; simpl.
  - unfold ret. rewrite with_log_same. reflexivity.
  - unfold bind at 1, fetchPokemonDetails_settle, try_catch.
    unfold details_of at 1, errors_of at 1.
    destruct (net i (url p)) as [data_stats|]; simpl.
    + unfold bind at 1. rewrite IH. reflexivity.
    + unfold throw, console_error, emit, modify. unfold bind at 1.
      unfold bind at 1. rewrite IH. unfold ret.
      rewrite with_log_twice. reflexivity.
Qed.

Lemma palette_lookup index :
  nth_error chartColors (index mod List.length chartColors) =
  Some (nth (index mod List.length chartColors) chartColors "").
Proof.
  apply nth_error_nth'. apply Nat.mod_upper_bound. discriminate.
Qed.

Lemma dataset_of_run pokemon index s :
  dataset_of pokemon index s =
  (match pokemon with
   | Some pokemon => Returned (dataset_for pokemon index)
   | None => Thrown TypeError
   end, s).
Proof.
  destruct pokemon as [pokemon|]; [|reflexivity].
  unfold dataset_of. rewrite palette_lookup. reflexivity.
Qed.

Lemma datasets_run (l : list (option PokemonDetails)) i s :
  mapM_from dataset_of i l s =
  (match datasets_from i l with
   | Some ds => Returned ds
   | None => Thrown TypeError
   end, s).
Proof.
  revert i. induction l as [|d l IH]; intros i; simpl; [reflexivity|].
  unfold bind at 1. rewrite dataset_of_run.
  destruct d as [pokemon|]; [|reflexivity].
  unfold bind at 1. rewrite IH.
  destruct (datasets_from (S i) l); reflexivity.
Qed.

Lemma datasets_from_null l i :
  In None l -> datasets_from i l = None.
Proof.
  revert i. induction l as [|d l IH]; intros i Hin; [contradiction|].
  destruct d as [pokemon|]; [|reflexivity].
  destruct Hin as [H|H]; [discriminate|].
  simpl. rewrite IH by assumption. reflexivity.
Qed.

Lemma datasets_from_all l i :
  datasets_from i (map Some l) = Some (mapIndexed_from dataset_for i l).
Proof.
  revert i. induction l as [|d l IH]; intros i; simpl; [reflexivity|].
  rewrite IH. reflexivity.
Qed.

Lemma updateChart_settle_run requested net s :
  updateChart_settle requested net s =
  let errors := concat (mapIndexed (errors_of net) requested) in
  match datasets_from 0 (mapIndexed (details_of net) requested) with
  | Some ds => (Returned tt, drawn ds errors s)
  | None => (Thrown TypeError, with_log (log s ++ errors) s)
  end.
Proof.
  unfold updateChart_settle, mapM. unfold bind at 1.
  rewrite fetches_settle_run. unfold bind at 1. rewrite datasets_run.
  fold (mapIndexed (details_of net) requested).
  fold (mapIndexed (errors_of net) requested).
  cbv zeta.
  destruct (datasets_from 0 (mapIndexed (details_of net) requested))
    as [ds|]; [|reflexivity].
  fold (radar ds).
  unfold bind at 1, get, drawn. cbn [chartInstance with_log].
  destruct (chartInstance s) as [c|]; reflexivity.
Qed.

(** [updateChart] never assigns [selectedPokemon]. *)
Lemma updateChart_call_selection s :
  selectedPokemon (exec updateChart_call s) = selectedPokemon s.
Proof.
  unfold exec. rewrite updateChart_call_run.
  destruct (List.length (selectedPokemon s) =? 0); reflexivity.
Qed.

Lemma updateChart_settle_selection requested net s :
  selectedPokemon (run_task (updateChart_settle requested net) s) =
  selectedPokemon s.
Proof.
  unfold run_task. rewrite updateChart_settle_run. cbv zeta.
  destruct (datasets_from 0 (mapIndexed (details_of net) requested));
    reflexivity.
Qed.

(** The selection after [togglePokemon] is the one its first half left. *)
Lemma togglePokemon_call_selection e s :
  selectedPokemon (exec (togglePokemon_call e) s) =
  selectedPokemon (exec (togglePokemon_selection e) s).
Proof.
  unfold togglePokemon_call, exec, bind.
  destruct (togglePokemon_selection_spec e s) as (sel' & warned & _ & ->).
  apply updateChart_call_selection.
Qed.

Lemma togglePokemon_call_toggled e s :
  exists warned,
    toggled e (selectedPokemon s)
            (selectedPokemon (exec (togglePokemon_call e) s)) warned.
Proof.
  rewrite togglePokemon_call_selection. unfold exec.
  destruct (togglePokemon_selection_spec e s) as (sel' & warned & Ht & ->).
  exists warned. destruct warned; simpl; [|assumption].
  inversion Ht; subst. assumption.
Qed.

(** Only a click changes the selection, and it changes it by a toggle. *)
Lemma step_selection a p :
  selectedPokemon (component (step a p)) = selectedPokemon (component p) \/
  exists e warned,
    a = Click e /\
    toggled e (selectedPokemon (component p))
            (selectedPokemon (component (step a p))) warned.
Proof.
  destruct a as [|term|e|k response|k net]; simpl.
  - left. reflexivity.
  - left. reflexivity.
  - right. destruct (togglePokemon_call_toggled e (component p)) as [w Ht].
    exists e, w. split; [reflexivity|].
    unfold exec in Ht.
    destruct (togglePokemon_call e (component p)) as [[[requested|]|err] s'];
      exact Ht.
  - left. destruct (nth_error (suspended p) k) as [[|requested]|];
      try reflexivity.
    destruct response; reflexivity.
  - left. destruct (nth_error (suspended p) k) as [[|requested]|];
      try reflexivity.
    simpl. apply updateChart_settle_selection.
Qed.

Lemma toggled_wellFormed e sel sel' warned :
  toggled e sel sel' warned -> wellFormed sel -> wellFormed sel'.
Proof.
  intros Ht [Hlen Hnd].
  destruct Ht as [l1 x l2 Hsel Hl1 Hx | Habs Hlt | Habs Hge].
  - subst sel. split.
    + rewrite length_app in *. simpl in Hlen. lia.
    + rewrite map_app in *. simpl in Hnd.
      apply NoDup_remove_1 in Hnd. assumption.
  - split.
    + rewrite length_app. simpl. lia.
    + rewrite map_app. simpl.
      apply (Permutation_NoDup (Permutation_cons_append (map id sel) (id e))).
      constructor; [|assumption].
      intros Hin. apply in_map_iff in Hin. destruct Hin as (p & Hp & Hin).
      exact (Habs p Hin Hp).
  - split; assumption.
Qed.

Lemma step_wellFormed a p :
  wellFormed (selectedPokemon (component p)) ->
  wellFormed (selectedPokemon (component (step a p))).
Proof.
  intros H. destruct (step_selection a p) as [-> | (e & w & _ & Ht)].
  - assumption.
  - eapply toggled_wellFormed; eassumption.
Qed.

Lemma run_wellFormed actions p :
  wellFormed (selectedPokemon (component p)) ->
  wellFormed (selectedPokemon (component (run actions p))).
Proof.
  revert p. induction actions as [|a actions IH]; intros p H; simpl.
  - assumption.
  - apply IH. apply step_wellFormed. assumption.
Qed.

(** C1. Whatever the user and the network do from the freshly loaded
    page, in any order and any number of times -- in particular any
    sequence of clicks, each of which calls [togglePokemon] -- the
    selection never holds more than six entries and no two of its entries
    have the same id. *)
Theorem selection_at_most_six_distinct (actions : list Action) :
  let sel := selectedPokemon (component (run actions start)) in
  List.length sel <= 6 /\ NoDup (map id sel).
Proof.
  apply (run_wellFormed actions start). split.
  - simpl. lia.
  - constructor.
Qed.

Lemma events_since_app s s' evs :
  log s' = log s ++ evs -> events_since s s' = evs.
Proof.
  intros H. unfold events_since. rewrite H.
  rewrite skipn_app, skipn_all, Nat.sub_diag. reflexivity.
Qed.

(** What a call of [togglePokemon] does, up to the [await] of its
    [updateChart]. *)
Lemma togglePokemon_call_run e s :
  exists sel' warned,
    toggled e (selectedPokemon s) sel' warned /\
    selectedPokemon (exec (togglePokemon_call e) s) = sel' /\
    events_since s (exec (togglePokemon_call e) s) =
      (if warned then [Alert capacityWarning] else []) ++
      (if List.length sel' =? 0 then [] else fetchEvents sel').
Proof.
  unfold togglePokemon_call, exec, bind.
  destruct (togglePokemon_selection_spec e s) as (sel' & warned & Ht & ->).
  exists sel', warned. split; [assumption|].
  rewrite updateChart_call_run.
  destruct warned.
  - inversion Ht; subst sel'. cbn [selectedPokemon with_log].
    destruct (List.length (selectedPokemon s) =? 0); cbn [snd].
    + split; [reflexivity|]. apply events_since_app. reflexivity.
    + split; [reflexivity|]. apply events_since_app. cbn.
      rewrite <- app_assoc. reflexivity.
  - cbn [selectedPokemon with_selectedPokemon].
    destruct (List.length sel' =? 0); cbn [snd].
    + split; [reflexivity|]. apply events_since_app. cbn.
      rewrite app_nil_r. reflexivity.
    + split; [reflexivity|]. apply events_since_app. reflexivity.
Qed.

Lemma fetchEvents_no_alert sel message :
  ~ In (Alert message) (fetchEvents sel).
Proof.
  unfold fetchEvents. intros H. apply in_map_iff in H.
  destruct H as (p & Hp & _). discriminate.
Qed.

Lemma quiet_toggle_no_alert sel message :
  ~ In (Alert message)
       ([] ++ (if List.length sel =? 0 then [] else fetchEvents sel)).
Proof.
  simpl. destruct (List.length sel =? 0).
  - intros [].
  - apply fetchEvents_no_alert.
Qed.

(** C2. A call of [togglePokemon(e)] goes one of three ways.  When an
    entry with the id of [e] is selected, the first such entry is taken
    out and the others stay in their order, with no warning.  When none is
    and fewer than six entries are selected, [e] is added at the end,
    with no warning.  When none is and six or more are selected, the
    capacity warning is shown and the selection stays as it was. *)
Theorem togglePokemon_cases (s : State) (e : CatalogEntry) :
  let sel := selectedPokemon s in
  let s' := exec (togglePokemon_call e) s in
  ((exists x, In x sel /\ id x = id e) ->
     exists l1 x l2,
       sel = l1 ++ x :: l2 /\ id x = id e /\
       (forall p, In p l1 -> id p <> id e) /\
       selectedPokemon s' = l1 ++ l2 /\
       (forall message, ~ In (Alert message) (events_since s s')))
  /\
  ((forall p, In p sel -> id p <> id e) -> List.length sel < 6 ->
     selectedPokemon s' = sel ++ [e] /\
     (forall message, ~ In (Alert message) (events_since s s')))
  /\
  ((forall p, In p sel -> id p <> id e) -> 6 <= List.length sel ->
     selectedPokemon s' = sel /\
     In (Alert capacityWarning) (events_since s s')).
Proof.
  intros sel s'. subst sel s'.
  destruct (togglePokemon_call_run e s) as (sel' & warned & Ht & Hsel & Hev).
  rewrite Hsel, Hev. clear Hsel Hev.
  split; [|split].
  - intros (y & Hy & Hid).
    destruct Ht as [l1 x l2 Hsplit Hl1 Hx | Habs _ | Habs _].
    + exists l1, x, l2. repeat split; try assumption.
      intros message. apply quiet_toggle_no_alert.
    + exfalso. exact (Habs y Hy Hid).
    + exfalso. exact (Habs y Hy Hid).
  - intros Habs Hlt.
    destruct Ht as [l1 x l2 Hsplit Hl1 Hx | _ _ | _ Hge].
    + exfalso. apply (Habs x); [|assumption].
      rewrite Hsplit. apply in_elt.
    + split; [reflexivity|].
      intros message. apply quiet_toggle_no_alert.
    + lia.
  - intros Habs Hge.
    destruct Ht as [l1 x l2 Hsplit Hl1 Hx | _ Hlt | _ _].
    + exfalso. apply (Habs x); [|assumption].
      rewrite Hsplit. apply in_elt.
    + lia.
    + split; [reflexivity|]. left. reflexivity.
Qed.

Lemma togglePokemon_cases_witness :
  (exists x, In x [bulbasaur; charmander] /\ id x = id bulbasaur) /\
  selectedPokemon
    (exec (togglePokemon_call bulbasaur)
          (with_selectedPokemon [bulbasaur; charmander] initial))
  = [charmander] /\
  selectedPokemon
    (exec (togglePokemon_call charmander)
          (with_selectedPokemon [bulbasaur] initial))
  = [bulbasaur; charmander] /\
  In (Alert capacityWarning)
     (events_since (with_selectedPokemon firstSix initial)
        (exec (togglePokemon_call squirtle)
              (with_selectedPokemon firstSix initial))).
Proof.
  assert (Hin : exists x, In x [bulbasaur; charmander] /\ id x = id bulbasaur).
  { exists bulbasaur. split; [left|]; reflexivity. }
  split; [exact Hin|].
  split; [|split].
  - destruct (proj1 (togglePokemon_cases
                       (with_selectedPokemon [bulbasaur; charmander] initial)
                       bulbasaur) Hin)
      as (l1 & x & l2 & _ & _ & _ & _ & _).
    reflexivity.
  - refine (proj1 (proj1 (proj2 (togglePokemon_cases
                       (with_selectedPokemon [bulbasaur] initial)
                       charmander)) _ _)).
    + simpl. intros p [<-|[]]. discriminate.
    + simpl. lia.
  - refine (proj2 (proj2 (proj2 (togglePokemon_cases
                       (with_selectedPokemon firstSix initial)
                       squirtle)) _ _)).
    + simpl. intros p H.
      repeat (destruct H as [<-|H]; [discriminate|]). destruct H.
    + simpl. lia.
Defined.

Lemma first_split_unique {A} (f : A -> bool) l1 x l2 l1' x' l2' :
  l1 ++ x :: l2 = l1' ++ x' :: l2' ->
  Forall (fun y => f y = false) l1 -> Forall (fun y => f y = false) l1' ->
  f x = true -> f x' = true ->
  l1 = l1' /\ x = x' /\ l2 = l2'.
Proof.
  intros Heq Hl1. revert l1' Heq.
  induction Hl1 as [|y l1 Hy _ IH]; intros l1' Heq Hl1' Hx Hx'.
  - destruct l1' as [|y' l1']; simpl in Heq.
    + inversion Heq. auto.
    + inversion Heq; subst. inversion Hl1'; subst. congruence.
  - destruct l1' as [|y' l1']; simpl in Heq.
    + inversion Heq; subst. congruence.
    + inversion Heq; subst. inversion Hl1'; subst.
      destruct (IH l1' H1 H3 Hx Hx') as (-> & -> & ->). auto.
Qed.

Lemma toggled_present e l1 x l2 sel' warned :
  toggled e (l1 ++ x :: l2) sel' warned ->
  (forall p, In p l1 -> id p <> id e) -> id x = id e ->
  sel' = l1 ++ l2.
Proof.
  intros Ht Hl1 Hx.
  inversion Ht as [k1 y k2 Hsplit Hk1 Hy | Habs _ | Habs _]; subst.
  - destruct (first_split_unique (sameId e) _ _ _ _ _ _ Hsplit)
      as (-> & _ & ->).
    + apply sameId_false_iff. assumption.
    + apply sameId_false_iff. assumption.
    + apply Z.eqb_eq. assumption.
    + apply Z.eqb_eq. assumption.
    + reflexivity.
  - exfalso. apply (Habs x); [apply in_elt | assumption].
  - exfalso. apply (Habs x); [apply in_elt | assumption].
Qed.

Lemma toggled_absent e sel sel' warned :
  toggled e sel sel' warned ->
  (forall p, In p sel -> id p <> id e) ->
  sel' = if List.length sel <? 6 then sel ++ [e] else sel.
Proof.
  intros Ht Habs.
  inversion Ht as [k1 y k2 Hsplit Hk1 Hy | _ Hlt | _ Hge]; subst.
  - exfalso. apply (Habs y); [apply in_elt | assumption].
  - destruct (Nat.ltb_spec (List.length sel) 6); [reflexivity | lia].
  - destruct (Nat.ltb_spec (List.length sel') 6); [lia | reflexivity].
Qed.

(** C6, as the code has it.  Two calls of [togglePokemon(e)] in a row
    give back the selection, content and order, when no selected entry
    has the id of [e], and when [e] is the last selected entry.  When the
    entry with the id of [e] stands elsewhere in a selection of at most
    six entries with distinct ids, the two calls take it out and put [e]
    at the end. *)
Theorem togglePokemon_twice (s : State) (e : CatalogEntry) :
  let sel := selectedPokemon s in
  let s'' := exec (togglePokemon_call e) (exec (togglePokemon_call e) s) in
  ((forall p, In p sel -> id p <> id e) -> selectedPokemon s'' = sel)
  /\
  (forall l1 x l2,
     sel = l1 ++ x :: l2 -> id x = id e ->
     (forall p, In p (l1 ++ l2) -> id p <> id e) ->
     List.length sel <= 6 ->
     selectedPokemon s'' = l1 ++ l2 ++ [e])
  /\
  (forall l,
     sel = l ++ [e] -> (forall p, In p l -> id p <> id e) ->
     List.length sel <= 6 ->
     selectedPokemon s'' = sel).
Proof.
  intros sel s''. subst sel s''.
  destruct (togglePokemon_call_toggled e s) as [w1 H1].
  destruct (togglePokemon_call_toggled e (exec (togglePokemon_call e) s))
    as [w2 H2].
  set (sel1 := selectedPokemon (exec (togglePokemon_call e) s)) in *.
  set (sel2 := selectedPokemon
                 (exec (togglePokemon_call e)
                       (exec (togglePokemon_call e) s))) in *.
  clearbody sel1 sel2.
  assert (Hgeneral : forall l1 x l2,
             selectedPokemon s = l1 ++ x :: l2 -> id x = id e ->
             (forall p, In p (l1 ++ l2) -> id p <> id e) ->
             List.length (selectedPokemon s) <= 6 ->
             sel2 = l1 ++ l2 ++ [e]).
  { intros l1 x l2 Hsplit Hx Hothers Hlen.
    rewrite Hsplit in H1, Hlen.
    apply toggled_present in H1; [|intros p Hp; apply Hothers, in_or_app; auto
                                  |assumption].
    subst sel1. apply toggled_absent in H2; [|assumption].
    rewrite length_app in *. simpl in Hlen.
    destruct (Nat.ltb_spec (List.length l1 + List.length l2) 6); [|lia].
    rewrite H2, app_assoc. reflexivity. }
  split; [|split].
  - intros Habs. apply toggled_absent in H1; [|assumption].
    destruct (List.length (selectedPokemon s) <? 6) eqn:Hlt; subst sel1.
    + apply toggled_present in H2; [|assumption|reflexivity].
      rewrite H2. apply app_nil_r.
    + apply toggled_absent in H2; [|assumption].
      rewrite Hlt in H2. assumption.
  - exact Hgeneral.
  - intros l Hsplit Hl Hlen.
    rewrite (Hgeneral l e [] Hsplit eq_refl); [| |assumption].
    + rewrite Hsplit. reflexivity.
    + rewrite app_nil_r. assumption.
Qed.

Lemma togglePokemon_twice_witness :
  (forall p, In p [bulbasaur] -> id p <> id charmander) /\
  selectedPokemon
    (exec (togglePokemon_call charmander)
       (exec (togglePokemon_call charmander)
          (with_selectedPokemon [bulbasaur] initial)))
  = [bulbasaur] /\
  (forall p, In p ([ivysaur] ++ [charmander]) -> id p <> id bulbasaur) /\
  selectedPokemon
    (exec (togglePokemon_call bulbasaur)
       (exec (togglePokemon_call bulbasaur)
          (with_selectedPokemon [ivysaur; bulbasaur; charmander] initial)))
  = [ivysaur; charmander; bulbasaur].
Proof.
  assert (H : forall p, In p [bulbasaur] -> id p <> id charmander).
  { intros p [<-|[]]. discriminate. }
  assert (H' : forall p, In p ([ivysaur] ++ [charmander]) ->
                         id p <> id bulbasaur).
  { intros p [<-|[<-|[]]]; discriminate. }
  split; [exact H|]. split; [|split; [exact H'|]].
  - exact (proj1 (togglePokemon_twice
                    (with_selectedPokemon [bulbasaur] initial) charmander) H).
  - refine (proj1 (proj2 (togglePokemon_twice
                    (with_selectedPokemon [ivysaur; bulbasaur; charmander]
                                          initial)
                    bulbasaur))
                  [ivysaur] bulbasaur [charmander] eq_refl eq_refl H' _).
    simpl. lia.
Defined.

(** C6 as the specification states it fails: with Bulbasaur and Charmander
    selected in that order, clicking Bulbasaur twice leaves Charmander
    first and Bulbasaur second. *)
Lemma double_toggle_reorders :
  let s := component (run [Click bulbasaur; Click charmander] start) in
  let s'' :=
    exec (togglePokemon_call bulbasaur)
         (exec (togglePokemon_call bulbasaur) s) in
  selectedPokemon s = [bulbasaur; charmander] /\
  selectedPokemon s'' = [charmander; bulbasaur] /\
  selectedPokemon s'' <> selectedPokemon s.
Proof.
  cbv zeta. split; [reflexivity|]. split; [reflexivity|].
  vm_compute. discriminate.
Qed.

(** ** Rendering *)

Lemma updateChart_run net s :
  updateChart net s =
  if List.length (selectedPokemon s) =? 0 then (Returned tt, s)
  else updateChart_settle (selectedPokemon s) net
         (with_log (log s ++ fetchEvents (selectedPokemon s))
                   (with_loading true s)).
Proof.
  unfold updateChart, bind. rewrite updateChart_call_run.
  destruct (List.length (selectedPokemon s) =? 0); reflexivity.
Qed.

Lemma mapIndexed_from_length {A B} (f : A -> nat -> B) k l :
  List.length (mapIndexed_from f k l) = List.length l.
Proof.
  revert k. induction l as [|x l IH]; intros k; simpl; [reflexivity|].
  rewrite IH. reflexivity.
Qed.

Lemma mapIndexed_from_nth {A B} (f : A -> nat -> B) k l i x :
  nth_error l i = Some x ->
  nth_error (mapIndexed_from f k l) i = Some (f x (k + i)).
Proof.
  revert k i. induction l as [|y l IH]; intros k i H.
  - destruct i; discriminate.
  - destruct i as [|i]; simpl in *.
    + inversion H. rewrite Nat.add_0_r. reflexivity.
    + rewrite (IH (S k) i H). f_equal. f_equal. lia.
Qed.

Lemma mapIndexed_from_twice {A B C} (f : A -> nat -> B) (g : B -> nat -> C)
    k l :
  mapIndexed_from g k (mapIndexed_from f k l) =
  mapIndexed_from (fun x i => g (f x i) i) k l.
Proof.
  revert k. induction l as [|x l IH]; intros k; simpl; [reflexivity|].
  rewrite IH. reflexivity.
Qed.

(** One failed request puts a [null] among the fetched details. *)
Lemma details_null net l i p :
  nth_error l i = Some p -> net i (url p) = None ->
  In None (mapIndexed (details_of net) l).
Proof.
  intros Hp Hnet. apply (nth_error_In _ i). unfold mapIndexed.
  rewrite (mapIndexed_from_nth _ 0 l i p Hp). simpl.
  unfold details_of. rewrite Hnet. reflexivity.
Qed.

(** When every request succeeds, every detail is there. *)
Lemma details_all net l k :
  (forall i p, nth_error l i = Some p -> net (k + i) (url p) <> None) ->
  mapIndexed_from (details_of net) k l =
  map Some (mapIndexed_from (fetched net) k l) /\
  concat (mapIndexed_from (errors_of net) k l) = [].
Proof.
  revert k. induction l as [|p l IH]; intros k H; simpl; [auto|].
  destruct (IH (S k)) as [IHd IHe].
  { intros i q Hq. replace (S k + i) with (k + S i) by lia.
    apply H. exact Hq. }
  rewrite IHd, IHe. specialize (H 0 p eq_refl). rewrite Nat.add_0_r in H.
  destruct (net k (url p)) as [data_stats|] eqn:Hnet; [|congruence].
  unfold details_of, errors_of. rewrite Hnet. split; [|reflexivity].
  f_equal. f_equal. unfold fetched. rewrite Hnet. reflexivity.
Qed.

Lemma errors_quiet net l k :
  Forall (fun ev => chartEvent ev = false)
         (concat (mapIndexed_from (errors_of net) k l)).
Proof.
  revert k. induction l as [|p l IH]; intros k; simpl; [constructor|].
  apply Forall_app. split; [|apply IH].
  unfold errors_of. destruct (net k (url p)); repeat constructor.
Qed.

Lemma fetchEvents_quiet l :
  Forall (fun ev => chartEvent ev = false) (fetchEvents l).
Proof.
  unfold fetchEvents. apply Forall_forall. intros ev H.
  apply in_map_iff in H. destruct H as (p & <- & _). reflexivity.
Qed.

(** What [updateChart] does on a selection with a failed request. *)
Lemma updateChart_failure net s i p :
  nth_error (selectedPokemon s) i = Some p -> net i (url p) = None ->
  updateChart net s =
  (Thrown TypeError,
   with_log (log s ++ fetchEvents (selectedPokemon s) ++
             concat (mapIndexed (errors_of net) (selectedPokemon s)))
            (with_loading true s)).
Proof.
  intros Hp Hnet. rewrite updateChart_run.
  destruct (selectedPokemon s) as [|q l] eqn:Hsel.
  { destruct i; discriminate. }
  cbn [List.length Nat.eqb]. rewrite updateChart_settle_run. cbv zeta.
  rewrite (datasets_from_null _ 0 (details_null net _ i p Hp Hnet)).
  cbn [log with_log with_loading]. unfold with_log, with_loading.
  cbn. rewrite <- app_assoc. reflexivity.
Qed.

(** What [updateChart] does on a selection whose requests all succeed. *)
Lemma updateChart_success net s :
  selectedPokemon s <> [] ->
  (forall i p, nth_error (selectedPokemon s) i = Some p ->
               net i (url p) <> None) ->
  updateChart net s =
  (Returned tt,
   drawn (mapIndexed (fun pokemon index =>
                        dataset_for (fetched net pokemon index) index)
                     (selectedPokemon s))
         []
         (with_log (log s ++ fetchEvents (selectedPokemon s))
                   (with_loading true s))).
Proof.
  intros Hne Hall. rewrite updateChart_run.
  destruct (selectedPokemon s) as [|q l] eqn:Hsel; [congruence|].
  cbn [List.length Nat.eqb]. rewrite updateChart_settle_run. cbv zeta.
  destruct (details_all net (q :: l) 0 Hall) as [Hd He].
  unfold mapIndexed. rewrite Hd, He, datasets_from_all.
  rewrite mapIndexed_from_twice. reflexivity.
Qed.

Lemma updateChart_settle_failure requested net s i p :
  nth_error requested i = Some p -> net i (url p) = None ->
  updateChart_settle requested net s =
  (Thrown TypeError,
   with_log (log s ++ concat (mapIndexed (errors_of net) requested)) s).
Proof.
  intros Hp Hnet. rewrite updateChart_settle_run. cbv zeta.
  rewrite (datasets_from_null _ 0 (details_null net _ i p Hp Hnet)).
  reflexivity.
Qed.

(** C3. When the detail request of at least one selected entry fails,
    [updateChart] ends with an exception and draws nothing: it creates no
    chart and destroys none, and [chartInstance] and the live charts are
    what they were before the call.  The same holds for the second half
    of a call whose requests settle after other code has run. *)
Theorem failed_fetch_draws_nothing (requested : list CatalogEntry)
    (net : Network) (s : State) :
  (exists i p, nth_error requested i = Some p /\ net i (url p) = None) ->
  (let s' := exec (updateChart_settle requested net) s in
   outcome (updateChart_settle requested net) s = Thrown TypeError /\
   chartInstance s' = chartInstance s /\
   liveCharts s' = liveCharts s /\
   Forall (fun ev => chartEvent ev = false) (events_since s s'))
  /\
  (requested = selectedPokemon s ->
   let s' := exec (updateChart net) s in
   outcome (updateChart net) s = Thrown TypeError /\
   chartInstance s' = chartInstance s /\
   liveCharts s' = liveCharts s /\
   Forall (fun ev => chartEvent ev = false) (events_since s s')).
Proof.
  intros (i & p & Hp & Hnet). split.
  - cbv zeta. unfold exec, outcome.
    rewrite (updateChart_settle_failure requested net s i p Hp Hnet).
    cbn [fst snd]. repeat split.
    erewrite events_since_app by (cbn; reflexivity). apply errors_quiet.
  - intros ->. cbv zeta. unfold exec, outcome.
    rewrite (updateChart_failure net s i p Hp Hnet).
    cbn [fst snd]. repeat split.
    erewrite events_since_app by (cbn; reflexivity).
    apply Forall_app. split; [apply fetchEvents_quiet | apply errors_quiet].
Qed.

Lemma failed_fetch_draws_nothing_witness :
  let s := component (run [Click bulbasaur; DetailsSettle 0 netUp;
                           Click charmander] start) in
  (exists i p, nth_error (selectedPokemon s) i = Some p /\
               netSecondFails i (url p) = None) /\
  outcome (updateChart netSecondFails) s = Thrown TypeError /\
  chartInstance (exec (updateChart netSecondFails) s) = Some 0 /\
  liveCharts (exec (updateChart netSecondFails) s) = [0].
Proof.
  cbv zeta.
  assert (H : exists i p,
             nth_error (selectedPokemon
                          (component (run [Click bulbasaur;
                                           DetailsSettle 0 netUp;
                                           Click charmander] start))) i
             = Some p /\ netSecondFails i (url p) = None).
  { exists 1, charmander. split; reflexivity. }
  split; [exact H|].
  destruct (proj2 (failed_fetch_draws_nothing _ netSecondFails _ H) eq_refl)
    as (Hout & Hchart & Hlive & _).
  split; [exact Hout|]. split.
  - rewrite Hchart. reflexivity.
  - rewrite Hlive. reflexivity.
Defined.

Lemma no_chart_among_quiet evs c config :
  Forall (fun ev => chartEvent ev = false) evs ->
  ~ In (ChartNew c config) evs.
Proof.
  intros Hq Hin. rewrite Forall_forall in Hq.
  specialize (Hq _ Hin). discriminate.
Qed.

(** C4. For a selection of N entries (N > 0) whose detail responses hold
    six stats each, [updateChart] creates one chart, and its data have
    the six axis labels in their fixed order and N datasets.  The dataset
    at position [i] belongs to the entry selected at position [i]: its
    label is the capitalised name, its values are the six [base_stat]s of
    the response in the order of the response, one for each axis, and its
    colours come from entry [i mod 6] of the palette. *)
Theorem chart_dataset (s : State) (net : Network) :
  let sel := selectedPokemon s in
  let s' := exec (updateChart net) s in
  sel <> [] ->
  (forall i p, nth_error sel i = Some p ->
     exists data_stats,
       net i (url p) = Some data_stats /\ List.length data_stats = 6) ->
  exists evs c config,
    outcome (updateChart net) s = Returned tt /\
    events_since s s' = evs ++ [ChartNew c config] /\
    (forall c' config', ~ In (ChartNew c' config') evs) /\
    labels (chart_data config) =
      ["HP"; "Ataque"; "Defensa"; "Ataque Esp."; "Defensa Esp."; "Velocidad"] /\
    List.length (datasets (chart_data config)) = List.length sel /\
    (forall i p data_stats,
       nth_error sel i = Some p -> net i (url p) = Some data_stats ->
       exists d,
         nth_error (datasets (chart_data config)) i = Some d /\
         label d = String.append (toUpperCase (charAt0 (name p)))
                                 (slice1 (name p)) /\
         data d = map base_stat data_stats /\
         List.length (data d) = List.length (labels (chart_data config)) /\
         nth_error chartColors (i mod List.length chartColors)
           = Some (backgroundColor d) /\
         borderColor d = replace (backgroundColor d) "0.7" "1").
Proof.
  intros sel s' Hne Hsix. subst sel s'.
  assert (Hall : forall i p, nth_error (selectedPokemon s) i = Some p ->
                             net i (url p) <> None).
  { intros i p Hp. destruct (Hsix i p Hp) as (st & -> & _). discriminate. }
  unfold exec, outcome. rewrite (updateChart_success net s Hne Hall).
  cbn [fst snd].
  set (ds := mapIndexed (fun pokemon index =>
                           dataset_for (fetched net pokemon index) index)
                        (selectedPokemon s)).
  exists (fetchEvents (selectedPokemon s) ++
          match chartInstance s with
          | Some c => [ChartDestroy c]
          | None => []
          end),
         (nextChart s), (radar ds).
  split; [reflexivity|]. split; [|split; [|split; [|split]]].
  - apply events_since_app. unfold drawn. cbn.
    destruct (chartInstance s); rewrite ?app_nil_r, <- ?app_assoc; reflexivity.
  - intros c' config' Hin. apply in_app_or in Hin. destruct Hin as [Hin|Hin].
    + exact (no_chart_among_quiet _ _ _ (fetchEvents_quiet _) Hin).
    + destruct (chartInstance s) as [c|]; [|destruct Hin].
      destruct Hin as [Hin|[]]. discriminate.
  - reflexivity.
  - apply mapIndexed_from_length.
  - intros i p data_stats Hp Hnet.
    exists (dataset_for (fetched net p i) i).
    split; [exact (mapIndexed_from_nth _ 0 _ i p Hp)|].
    destruct (Hsix i p Hp) as (st & Hst & Hlen).
    rewrite Hnet in Hst. inversion Hst; subst st.
    unfold dataset_for, fetched. cbn [label data backgroundColor borderColor
      details_name details_stats chart_data labels radar].
    rewrite Hnet, map_map. cbn [stat_value].
    repeat split.
    + rewrite length_map. exact Hlen.
    + apply palette_lookup.
Qed.

Lemma chart_dataset_witness :
  let s := with_selectedPokemon [bulbasaur; charmander] initial in
  selectedPokemon s <> [] /\
  (forall i p, nth_error (selectedPokemon s) i = Some p ->
     exists data_stats,
       netUp i (url p) = Some data_stats /\ List.length data_stats = 6) /\
  exists evs c config,
    events_since s (exec (updateChart netUp) s) = evs ++ [ChartNew c config] /\
    List.length (datasets (chart_data config)) = 2 /\
    exists d,
      nth_error (datasets (chart_data config)) 1 = Some d /\
      label d = "Charmander" /\
      data d = [45; 49; 49; 65; 65; 45]%Z /\
      backgroundColor d = "rgba(54, 162, 235, 0.7)" /\
      borderColor d = "rgba(54, 162, 235, 1)".
Proof.
  cbv zeta.
  assert (Hne : selectedPokemon
                  (with_selectedPokemon [bulbasaur; charmander] initial)
                <> []) by discriminate.
  assert (Hsix : forall i p,
             nth_error (selectedPokemon
                          (with_selectedPokemon [bulbasaur; charmander]
                                                initial)) i = Some p ->
             exists data_stats,
               netUp i (url p) = Some data_stats /\
               List.length data_stats = 6).
  { intros i p _. exists bulbasaurStats. split; reflexivity. }
  split; [exact Hne|]. split; [exact Hsix|].
  destruct (chart_dataset _ netUp Hne Hsix)
    as (evs & c & config & _ & Hev & _ & _ & Hlen & Hds).
  exists evs, c, config. split; [exact Hev|]. split; [exact Hlen|].
  destruct (Hds 1 charmander bulbasaurStats eq_refl eq_refl)
    as (d & Hd & Hlabel & Hdata & _ & Hcolor & Hborder).
  exists d. split; [exact Hd|]. split; [exact Hlabel|]. split; [exact Hdata|].
  assert (Hbg : backgroundColor d = "rgba(54, 162, 235, 0.7)").
  { simpl in Hcolor. inversion Hcolor. reflexivity. }
  split; [exact Hbg|]. rewrite Hborder, Hbg. reflexivity.
Defined.

(** ** The loading flag *)

(** The catalog load always puts [loading] back to [false]. *)
Lemma fetchPokemonList_restores_loading response s :
  loading (exec (fetchPokemonList response) s) = false.
Proof. destruct response; reflexivity. Qed.

Lemma fetchPokemonList_settle_restores_loading response s :
  loading (exec (fetchPokemonList_settle response) s) = false.
Proof. destruct response; reflexivity. Qed.

(** So does a render whose requests all succeed. *)
Lemma updateChart_success_restores_loading net s :
  selectedPokemon s <> [] ->
  (forall i p, nth_error (selectedPokemon s) i = Some p ->
               net i (url p) <> None) ->
  loading (exec (updateChart net) s) = false.
Proof.
  intros Hne Hall. unfold exec. rewrite updateChart_success by assumption.
  reflexivity.
Qed.

(** A render with a failed request does not. *)
Lemma updateChart_failure_keeps_loading net s i p :
  nth_error (selectedPokemon s) i = Some p -> net i (url p) = None ->
  loading (exec (updateChart net) s) = true.
Proof.
  intros Hp Hnet. unfold exec.
  rewrite (updateChart_failure net s i p Hp Hnet). reflexivity.
Qed.

(** C8 fails on the code.  With Bulbasaur selected and its detail request
    failing, [updateChart] sets [loading], ends with an exception and
    never puts [loading] back: once the click and the failed request are
    over nothing is suspended any more, [loading] is still [true] and the
    page shows the loading text. *)
Theorem loading_stuck_after_failed_fetch :
  let s := with_selectedPokemon [bulbasaur] initial in
  let page := run [Click bulbasaur; DetailsSettle 0 netDown] start in
  loading s = false /\
  outcome (updateChart netDown) s = Thrown TypeError /\
  loading (exec (updateChart netDown) s) = true /\
  suspended page = [] /\
  loading (component page) = true /\
  chart_container (component page) = LoadingText.
Proof. cbv zeta. repeat split. Qed.

(** ** Rendering an empty selection *)

(** C10. Called with an empty selection, [updateChart] returns at once
    and leaves the state as it was: [chartInstance] keeps its value, no
    chart is destroyed, [loading] is not assigned and nothing is
    requested. *)
Theorem updateChart_empty_selection_unchanged (s : State) (net : Network) :
  selectedPokemon s = [] ->
  updateChart_call s = (Returned None, s) /\
  updateChart net s = (Returned tt, s) /\
  let s' := exec (updateChart net) s in
  chartInstance s' = chartInstance s /\
  liveCharts s' = liveCharts s /\
  loading s' = loading s /\
  events_since s s' = [].
Proof.
  intros Hsel.
  assert (Hcall : updateChart_call s = (Returned None, s)).
  { rewrite updateChart_call_run, Hsel. reflexivity. }
  assert (Hrun : updateChart net s = (Returned tt, s)).
  { rewrite updateChart_run, Hsel. reflexivity. }
  split; [exact Hcall|]. split; [exact Hrun|].
  cbv zeta. unfold exec. rewrite Hrun. cbn [snd]. repeat split.
  apply events_since_app. symmetry. apply app_nil_r.
Qed.

Lemma updateChart_empty_selection_unchanged_witness :
  let s := component (run [Click bulbasaur; DetailsSettle 0 netUp;
                           Click bulbasaur] start) in
  selectedPokemon s = [] /\
  chartInstance (exec (updateChart netUp) s) = Some 0 /\
  liveCharts (exec (updateChart netUp) s) = [0] /\
  loading (exec (updateChart netUp) s) = false.
Proof.
  cbv zeta.
  destruct (updateChart_empty_selection_unchanged
              (component (run [Click bulbasaur; DetailsSettle 0 netUp;
                               Click bulbasaur] start))
              netUp eq_refl)
    as (_ & _ & Hchart & Hlive & Hloading & _).
  split; [reflexivity|]. split; [|split].
  - rewrite Hchart. reflexivity.
  - rewrite Hlive. reflexivity.
  - rewrite Hloading. reflexivity.
Defined.

(** C9, as the code has it.  Called with an empty selection,
    [updateChart] requests nothing and creates no chart.  The page then
    shows the no-data text when [loading] is [false], and the loading
    text when [loading] is [true]; the call leaves [loading] as it
    found it. *)
Theorem updateChart_empty_selection_view (s : State) (net : Network) :
  selectedPokemon s = [] ->
  let s' := exec (updateChart net) s in
  outcome updateChart_call s = Returned None /\
  (forall address, ~ In (Fetch address) (events_since s s')) /\
  (forall c config, ~ In (ChartNew c config) (events_since s s')) /\
  chart_container s' = if loading s then LoadingText else NoDataText.
Proof.
  intros Hsel. cbv zeta.
  assert (Hcall : updateChart_call s = (Returned None, s)).
  { rewrite updateChart_call_run, Hsel. reflexivity. }
  assert (Hrun : updateChart net s = (Returned tt, s)).
  { rewrite updateChart_run, Hsel. reflexivity. }
  unfold exec, outcome. rewrite Hcall, Hrun. cbn [fst snd].
  assert (Hev : events_since s s = []).
  { apply events_since_app. symmetry. apply app_nil_r. }
  rewrite Hev. repeat split; try (intros; intros []).
  unfold chart_container. rewrite Hsel. reflexivity.
Qed.

Lemma updateChart_empty_selection_view_witness :
  selectedPokemon initial = [] /\
  chart_container (exec (updateChart netUp) initial) = NoDataText.
Proof.
  split; [reflexivity|].
  exact (proj2 (proj2 (proj2
           (updateChart_empty_selection_view initial netUp eq_refl)))).
Defined.

(** C9 as the specification states it fails: a second click on Bulbasaur
    while the render of the first click is still waiting empties the
    selection and calls [updateChart], which returns at once; [loading]
    is still [true] from the first render, so the page shows the loading
    text and not the no-data text. *)
Lemma empty_selection_shows_loading_text :
  let s := exec (togglePokemon_selection bulbasaur)
                (component (run [Click bulbasaur] start)) in
  selectedPokemon s = [] /\
  chart_container (exec (updateChart netUp) s) = LoadingText /\
  chart_container (exec (updateChart netUp) s) <> NoDataText /\
  chart_container (component (run [Click bulbasaur; Click bulbasaur] start))
    = LoadingText.
Proof.
  cbv zeta. split; [reflexivity|]. split; [reflexivity|].
  split; [|reflexivity]. vm_compute. discriminate.
Qed.

(** ** The chart *)

Lemma liveAfter_app evs1 evs2 live :
  liveAfter (evs1 ++ evs2) live = liveAfter evs2 (liveAfter evs1 live).
Proof.
  revert live. induction evs1 as [|ev evs1 IH]; intros live; simpl.
  - reflexivity.
  - destruct ev; apply IH.
Qed.

Lemma liveAfter_quiet evs live :
  Forall (fun ev => chartEvent ev = false) evs -> liveAfter evs live = live.
Proof.
  intros H. revert live.
  induction H as [|ev evs Hev _ IH]; intros live; simpl; [reflexivity|].
  destruct ev; try discriminate; apply IH.
Qed.

Lemma orderly_nil : orderly [].
Proof.
  intros before after H. symmetry in H. apply app_eq_nil in H.
  destruct H as [-> ->]. split; [simpl; lia | discriminate].
Qed.

Lemma orderly_live evs : orderly evs -> List.length (liveAfter evs []) <= 1.
Proof.
  intros H. apply (H evs []). symmetry. apply app_nil_r.
Qed.

(** One more event keeps a log orderly when it leaves at most one chart
    live and, if it creates a chart, none was live. *)
Lemma orderly_snoc evs ev :
  orderly evs ->
  List.length (liveAfter (evs ++ [ev]) []) <= 1 ->
  (forall c config, ev = ChartNew c config -> liveAfter evs [] = []) ->
  orderly (evs ++ [ev]).
Proof.
  intros Hevs Hlen Hnew before after Heq.
  destruct after as [|x after _] using rev_ind.
  - rewrite app_nil_r in Heq. subst before. split; [assumption|discriminate].
  - rewrite app_assoc in Heq. apply app_inj_tail in Heq.
    destruct Heq as [Heq <-].
    split; [exact (proj1 (Hevs before after Heq))|].
    intros c config rest Hrest.
    destruct after as [|y after].
    + simpl in Hrest. inversion Hrest; subst.
      rewrite app_nil_r in Hnew. apply (Hnew c config). reflexivity.
    + simpl in Hrest. inversion Hrest; subst.
      exact (proj2 (Hevs before (ChartNew c config :: after) eq_refl)
                   c config after eq_refl).
Qed.

Lemma orderly_quiet evs evs' :
  orderly evs -> Forall (fun ev => chartEvent ev = false) evs' ->
  orderly (evs ++ evs').
Proof.
  intros Hevs Hq. revert evs Hevs.
  induction Hq as [|ev evs' Hev _ IH]; intros evs Hevs.
  - rewrite app_nil_r. assumption.
  - replace (evs ++ ev :: evs') with ((evs ++ [ev]) ++ evs')
      by (rewrite <- app_assoc; reflexivity).
    apply IH. apply orderly_snoc.
    + assumption.
    + rewrite liveAfter_app.
      rewrite (liveAfter_quiet [ev]) by (constructor; [assumption|constructor]).
      apply orderly_live. assumption.
    + intros c config ->. discriminate.
Qed.

Lemma remove_only c : List.remove Nat.eq_dec c [c] = [].
Proof. simpl. destruct (Nat.eq_dec c c); [reflexivity | congruence]. Qed.

Lemma chartStep_chartsInOrder s s' :
  chartsInOrder s -> chartStep s s' -> chartsInOrder s'.
Proof.
  intros (Hlive & Hlog & Hord) Hstep. unfold chartsInOrder, chartHeld in *.
  destruct Hstep as [evs Hq Hevs Hc Hl | evs config Hq Hevs Hc Hl].
  - rewrite Hevs, Hc, Hl, liveAfter_app, (liveAfter_quiet evs) by assumption.
    split; [assumption|]. split; [assumption|].
    apply orderly_quiet; assumption.
  - rewrite Hevs, Hc, Hl. clear Hevs Hc Hl.
    pose proof (orderly_quiet _ _ Hord Hq) as Hord'.
    assert (Hlog' : liveAfter (log s ++ evs) [] = liveAfter (log s) []).
    { rewrite liveAfter_app. apply liveAfter_quiet. assumption. }
    destruct (chartInstance s) as [c|].
    + rewrite Hlive, remove_only.
      assert (Hnone : liveAfter ((log s ++ evs) ++ [ChartDestroy c]) [] = []).
      { rewrite liveAfter_app, Hlog', Hlog. simpl. apply remove_only. }
      split; [reflexivity|]. split.
      * rewrite liveAfter_app, Hnone. reflexivity.
      * apply orderly_snoc.
        -- apply orderly_snoc.
           ++ assumption.
           ++ rewrite Hnone. simpl. lia.
           ++ intros c' config' H. discriminate.
        -- rewrite liveAfter_app, Hnone. simpl. lia.
        -- intros _ _ _. exact Hnone.
    + rewrite Hlive.
      split; [reflexivity|]. split.
      * rewrite liveAfter_app, Hlog', Hlog. reflexivity.
      * apply orderly_snoc.
        -- assumption.
        -- rewrite liveAfter_app, Hlog', Hlog. simpl. lia.
        -- intros _ _ _. rewrite Hlog', Hlog. reflexivity.
Qed.

Lemma chartStep_refl s : chartStep s s.
Proof.
  apply chartStep_quiet with (evs := []); auto using app_nil_r.
Qed.

Lemma updateChart_settle_chartStep requested net s :
  chartStep s (run_task (updateChart_settle requested net) s).
Proof.
  unfold run_task. rewrite updateChart_settle_run. cbv zeta.
  pose proof (errors_quiet net requested 0) as Hq.
  fold (mapIndexed (errors_of net) requested) in Hq.
  destruct (datasets_from 0 (mapIndexed (details_of net) requested)) as [ds|].
  - apply chartStep_redraw
      with (evs := concat (mapIndexed (errors_of net) requested))
           (config := radar ds); try assumption; reflexivity.
  - apply chartStep_quiet
      with (evs := concat (mapIndexed (errors_of net) requested) ++
                   [UnhandledRejection TypeError]).
    + apply Forall_app. split; [assumption|]. repeat constructor.
    + cbn. symmetry. apply app_assoc.
    + reflexivity.
    + reflexivity.
Qed.

Lemma togglePokemon_call_chartStep e s :
  chartStep s (exec (togglePokemon_call e) s) /\
  exists waiting, outcome (togglePokemon_call e) s = Returned waiting.
Proof.
  unfold togglePokemon_call, exec, outcome, bind.
  destruct (togglePokemon_selection_spec e s) as (sel' & warned & _ & ->).
  rewrite updateChart_call_run.
  set (s1 := if warned then with_log (log s ++ [Alert capacityWarning]) s
             else with_selectedPokemon sel' s).
  assert (H1 : chartInstance s1 = chartInstance s /\
               liveCharts s1 = liveCharts s /\
               exists evs, Forall (fun ev => chartEvent ev = false) evs /\
                           log s1 = log s ++ evs).
  { subst s1. destruct warned; cbn.
    - repeat split. exists [Alert capacityWarning]. split; [|reflexivity].
      repeat constructor.
    - repeat split. exists []. split; [constructor|].
      symmetry. apply app_nil_r. }
  destruct H1 as (Hc & Hl & evs & Hq & Hlog).
  destruct (List.length (selectedPokemon s1) =? 0); cbn [fst snd].
  - split; [|eexists; reflexivity].
    apply chartStep_quiet with (evs := evs); assumption.
  - split; [|eexists; reflexivity].
    apply chartStep_quiet
      with (evs := evs ++ fetchEvents (selectedPokemon s1)).
    + apply Forall_app. split; [assumption | apply fetchEvents_quiet].
    + cbn. rewrite Hlog. symmetry. apply app_assoc.
    + exact Hc.
    + exact Hl.
Qed.

Lemma step_chartStep a p :
  chartStep (component p) (component (step a p)).
Proof.
  destruct a as [|term|e|k response|k net]; simpl.
  - apply chartStep_quiet with (evs := [Fetch catalogAddress]);
      try reflexivity. repeat constructor.
  - apply chartStep_quiet with (evs := []);
      try reflexivity; [constructor|]. cbn. symmetry. apply app_nil_r.
  - destruct (togglePokemon_call_chartStep e (component p)) as [H [w Hw]].
    unfold exec, outcome in *.
    destruct (togglePokemon_call e (component p)) as [r s']. simpl in *.
    subst r. destruct w; exact H.
  - destruct (nth_error (suspended p) k) as [[|requested]|];
      try apply chartStep_refl.
    destruct response as [results|]; simpl.
    + apply chartStep_quiet with (evs := []);
        try reflexivity; [constructor|]. cbn. symmetry. apply app_nil_r.
    + apply chartStep_quiet
        with (evs := [ConsoleError "Error al obtener la lista de Pokémon:"]);
        try reflexivity. repeat constructor.
  - destruct (nth_error (suspended p) k) as [[|requested]|];
      try apply chartStep_refl.
    simpl. apply updateChart_settle_chartStep.
Qed.

Lemma run_chartsInOrder actions p :
  chartsInOrder (component p) -> chartsInOrder (component (run actions p)).
Proof.
  revert p. induction actions as [|a actions IH]; intros p H; simpl.
  - assumption.
  - apply IH. eapply chartStep_chartsInOrder; [exact H|]. apply step_chartStep.
Qed.

(** C7. Whatever the user and the network do from the freshly loaded
    page, the live charts are always the chart held in [chartInstance],
    if any.  At every moment of the log at most one chart is live, and
    whenever a chart is created none is live: the chart created before
    it has been destroyed first. *)
Theorem at_most_one_live_chart (actions : list Action)
    (before after : list Event) :
  let s := component (run actions start) in
  log s = before ++ after ->
  liveCharts s = chartHeld s /\
  liveAfter (log s) [] = liveCharts s /\
  List.length (liveAfter before []) <= 1 /\
  (forall c config rest,
     after = ChartNew c config :: rest -> liveAfter before [] = []).
Proof.
  intros s Hlog.
  destruct (run_chartsInOrder actions start) as (Hlive & Hheld & Hord).
  { split; [reflexivity|]. split; [reflexivity|]. apply orderly_nil. }
  fold s in Hlive, Hheld, Hord.
  split; [exact Hlive|]. split; [congruence|].
  exact (Hord before after Hlog).
Qed.

Lemma at_most_one_live_chart_witness :
  let s := component (run [Click bulbasaur; DetailsSettle 0 netUp;
                           Click charmander; DetailsSettle 0 netUp] start) in
  log s = firstn 5 (log s) ++ skipn 5 (log s) /\
  liveCharts s = [1] /\
  liveAfter (firstn 4 (log s)) [] = [0] /\
  liveAfter (firstn 5 (log s)) [] = [].
Proof.
  cbv zeta.
  set (s := component (run [Click bulbasaur; DetailsSettle 0 netUp;
                            Click charmander; DetailsSettle 0 netUp] start)).
  assert (H : log s = firstn 5 (log s) ++ skipn 5 (log s)).
  { symmetry. apply firstn_skipn. }
  assert (Hlast : exists c config, skipn 5 (log s) = [ChartNew c config]).
  { vm_compute. eexists. eexists. reflexivity. }
  destruct Hlast as (c & config & Hlast).
  destruct (at_most_one_live_chart
              [Click bulbasaur; DetailsSettle 0 netUp;
               Click charmander; DetailsSettle 0 netUp]
              (firstn 5 (log s)) (skipn 5 (log s)) H)
    as (Hlive & _ & _ & Hnew).
  split; [exact H|]. split; [|split].
  - transitivity (chartHeld s); [exact Hlive|]. vm_compute. reflexivity.
  - vm_compute. reflexivity.
  - exact (Hnew c config [] Hlast).
Defined.

(** ** The search filter *)











(** [selects] leaves no choice: the result is determined. *)
Lemma selects_unique P catalog r1 r2 :
  selects P catalog r1 -> selects P catalog r2 -> r1 = r2.
Proof.
  intros H1. revert r2.
  induction H1 as [|e catalog r1 He _ IH | e catalog r1 He _ IH];
    intros r2 H2; inversion H2; subst; try contradiction.
  - reflexivity.
  - f_equal. apply IH. assumption.
  - apply IH. assumption.
Qed.




(** * Further properties *)

(** ** The catalog *)

Lemma numbered_from_ids (results : list PokemonAPIResponse) k :
  map id (mapIndexed_from
            (fun pokemon index =>
               {| id := Z.of_nat index + 1;
                  name := api_name pokemon;
                  url := api_url pokemon |}) k results) =
  map (fun index => (Z.of_nat index + 1)%Z) (seq k (List.length results)).
Proof.
  revert k. induction results as [|r results IH]; intros k; simpl.
  - reflexivity.
  - rewrite IH. reflexivity.
Qed.

Lemma catalog_names_urls (results : list PokemonAPIResponse) k :
  let catalog :=
    mapIndexed_from
      (fun pokemon index =>
         {| id := Z.of_nat index + 1;
            name := api_name pokemon;
            url := api_url pokemon |}) k results in
  map name catalog = map api_name results /\
  map url catalog = map api_url results.
Proof.
  revert k. induction results as [|r results IH]; intros k; simpl.
  - split; reflexivity.
  - destruct (IH (S k)) as [Hn Hu]. simpl in Hn, Hu. rewrite Hn, Hu.
    split; reflexivity.
Qed.

Lemma numbered_NoDup n : NoDup (numbered n).
Proof.
  unfold numbered. apply Finite.Injective_map_NoDup.
  - intros a b H. lia.
  - apply seq_NoDup.
Qed.

Lemma numbered_bounds n x : In x (numbered n) <-> (1 <= x <= Z.of_nat n)%Z.
Proof.
  unfold numbered. rewrite in_map_iff. split.
  - intros (i & <- & Hi). apply in_seq in Hi. lia.
  - intros H. exists (Z.to_nat (x - 1)). split; [lia|].
    apply in_seq. lia.
Qed.

(** X1. When the catalog request succeeds, [fetchPokemonList] ends
    normally and puts into [pokemonData] one entry for each result, in
    the order of the response: the entry at position [i] (from 0) has id
    [i + 1] and the name and url of the result at position [i].  The ids
    are pairwise distinct, [loading] is [false] again, the only thing
    done outside is the request, and the selection and the chart stay as
    they were. *)
Theorem catalog_load_success (results : list PokemonAPIResponse)
    (s : State) :
  let s' := exec (fetchPokemonList (Some results)) s in
  outcome (fetchPokemonList (Some results)) s = Returned tt /\
  map id (pokemonData s') = numbered (List.length results) /\
  map name (pokemonData s') = map api_name results /\
  map url (pokemonData s') = map api_url results /\
  NoDup (map id (pokemonData s')) /\
  loading s' = false /\
  events_since s s' = [Fetch catalogAddress] /\
  selectedPokemon s' = selectedPokemon s /\
  chartInstance s' = chartInstance s.
Proof.
  cbv zeta.
  assert (Hids : map id (pokemonData
                           (exec (fetchPokemonList (Some results)) s)) =
                 numbered (List.length results)).
  { cbn. unfold mapIndexed. apply numbered_from_ids. }
  split; [reflexivity|]. split; [exact Hids|].
  split; [exact (proj1 (catalog_names_urls results 0))|].
  split; [exact (proj2 (catalog_names_urls results 0))|].
  split; [rewrite Hids; apply numbered_NoDup|].
  split; [reflexivity|].
  split; [apply events_since_app; reflexivity|].
  split; reflexivity.
Qed.

(** X2. Whatever the catalog request answers, [fetchPokemonList] never
    lets an exception out and always leaves [loading] at [false].  When
    the request fails, [pokemonData] keeps the value it had, and the only
    things done outside are the request and one console error. *)
Theorem catalog_load_never_throws (response : CatalogResult) (s : State) :
  let s' := exec (fetchPokemonList response) s in
  outcome (fetchPokemonList response) s = Returned tt /\
  loading s' = false /\
  selectedPokemon s' = selectedPokemon s /\
  chartInstance s' = chartInstance s /\
  searchTerm s' = searchTerm s /\
  (response = None ->
   pokemonData s' = pokemonData s /\
   events_since s s' =
     [Fetch catalogAddress;
      ConsoleError "Error al obtener la lista de Pokémon:"]).
Proof.
  cbv zeta. destruct response as [results|].
  - repeat split; discriminate.
  - repeat split. apply events_since_app. cbn.
    rewrite <- app_assoc. reflexivity.
Qed.

Lemma catalog_load_never_throws_witness :
  (@None (list PokemonAPIResponse)) = None /\
  pokemonData (exec (fetchPokemonList None) initial) = [] /\
  loading (exec (fetchPokemonList None) initial) = false.
Proof.
  destruct (catalog_load_never_throws None initial)
    as (_ & Hloading & _ & _ & _ & Hfail).
  split; [reflexivity|]. split.
  - exact (proj1 (Hfail eq_refl)).
  - exact Hloading.
Defined.

(** Only the answer to the catalog request changes [pokemonData]. *)
Lemma step_pokemonData a p :
  pokemonData (component (step a p)) = pokemonData (component p) \/
  exists k results,
    a = CatalogSettles k (Some results) /\
    pokemonData (component (step a p)) =
      mapIndexed (fun pokemon index =>
                    {| id := Z.of_nat index + 1;
                       name := api_name pokemon;
                       url := api_url pokemon |}) results.
Proof.
  destruct a as [|term|e|k response|k net]; simpl.
  - left. reflexivity.
  - left. reflexivity.
  - left. unfold togglePokemon_call, bind.
    destruct (togglePokemon_selection_spec e (component p))
      as (sel' & warned & _ & ->).
    rewrite updateChart_call_run.
    destruct warned;
      match goal with
      | |- context [if ?b then _ else _] => destruct b
      end; reflexivity.
  - destruct (nth_error (suspended p) k) as [[|requested]|];
      try (left; reflexivity).
    destruct response as [results|].
    + right. exists k, results. split; reflexivity.
    + left. reflexivity.
  - left. destruct (nth_error (suspended p) k) as [[|requested]|];
      try reflexivity.
    simpl. unfold run_task. rewrite updateChart_settle_run. cbv zeta.
    destruct (datasets_from 0 (mapIndexed (details_of net) requested));
      reflexivity.
Qed.

Lemma run_catalog_numbered actions p :
  map id (pokemonData (component p)) =
    numbered (List.length (pokemonData (component p))) ->
  map id (pokemonData (component (run actions p))) =
    numbered (List.length (pokemonData (component (run actions p)))).
Proof.
  revert p. induction actions as [|a actions IH]; intros p Hp; simpl.
  - exact Hp.
  - apply IH.
    destruct (step_pokemonData a p) as [-> | (k & results & _ & ->)].
    + exact Hp.
    + unfold mapIndexed. rewrite numbered_from_ids, mapIndexed_from_length.
      reflexivity.
Qed.

(** X3. Whatever the user and the network do from the freshly loaded
    page, the ids of the catalog are 1, 2, ..., n in catalog order, and
    so pairwise distinct. *)
Theorem catalog_ids_numbered (actions : list Action) :
  let catalog := pokemonData (component (run actions start)) in
  map id catalog = numbered (List.length catalog) /\
  NoDup (map id catalog).
Proof.
  cbv zeta.
  pose proof (run_catalog_numbered actions start eq_refl) as H.
  split; [exact H|]. rewrite H. apply numbered_NoDup.
Qed.

(** ** Fetching details *)









(** ** Clicking *)

(** Everything a call of [togglePokemon] does, up to the [await] of its
    [updateChart]. *)
Lemma togglePokemon_call_full e s :
  exists sel' warned,
    toggled e (selectedPokemon s) sel' warned /\
    togglePokemon_call e s =
      (Returned (if List.length sel' =? 0 then None else Some sel'),
       let s1 := if warned
                 then with_log (log s ++ [Alert capacityWarning]) s
                 else with_selectedPokemon sel' s in
       if List.length sel' =? 0 then s1
       else with_log (log s1 ++ fetchEvents sel') (with_loading true s1)).
Proof.
  unfold togglePokemon_call, bind.
  destruct (togglePokemon_selection_spec e s) as (sel' & warned & Ht & ->).
  exists sel', warned. split; [exact Ht|].
  rewrite updateChart_call_run. cbv zeta.
  assert (Hsel : selectedPokemon
                   (if warned
                    then with_log (log s ++ [Alert capacityWarning]) s
                    else with_selectedPokemon sel' s) = sel').
  { destruct warned; [|reflexivity]. inversion Ht; subst. reflexivity. }
  rewrite Hsel. destruct (List.length sel' =? 0); reflexivity.
Qed.

Lemma isPokemonSelected_iff e sel :
  isPokemonSelected e sel = true <-> exists p, In p sel /\ id p = id e.
Proof.
  unfold isPokemonSelected. rewrite existsb_exists.
  split; intros (p & Hp & H); exists p; split; try assumption.
  - apply Z.eqb_eq. exact H.
  - apply Z.eqb_eq. exact H.
Qed.

Lemma isPokemonSelected_false_iff e sel :
  isPokemonSelected e sel = false <-> forall p, In p sel -> id p <> id e.
Proof.
  rewrite <- Bool.not_true_iff_false, isPokemonSelected_iff. split.
  - intros H p Hp Hid. apply H. exists p. auto.
  - intros H (p & Hp & Hid). exact (H p Hp Hid).
Qed.

(** X7. On a selection with distinct ids, a call of [togglePokemon(e)]
    flips what [isPokemonSelected(e)] answers, unless six entries are
    already selected: an entry that was selected is no longer selected
    and the selection is one shorter; an entry that was not selected,
    with fewer than six selected, is selected and the selection is one
    longer. *)
Theorem togglePokemon_flips_isPokemonSelected (s : State)
    (e : CatalogEntry) :
  NoDup (map id (selectedPokemon s)) ->
  let sel := selectedPokemon s in
  let sel' := selectedPokemon (exec (togglePokemon_call e) s) in
  (isPokemonSelected e sel = true ->
   isPokemonSelected e sel' = false /\
   S (List.length sel') = List.length sel)
  /\
  (isPokemonSelected e sel = false -> List.length sel < 6 ->
   isPokemonSelected e sel' = true /\
   List.length sel' = S (List.length sel)).
Proof.
  intros Hnd. cbv zeta.
  destruct (togglePokemon_call_toggled e s) as [warned Ht].
  set (sel' := selectedPokemon (exec (togglePokemon_call e) s)) in *.
  clearbody sel'. split.
  - intros Hsel. apply isPokemonSelected_iff in Hsel.
    destruct Hsel as (y & Hy & Hid).
    destruct Ht as [l1 x l2 Hsplit Hl1 Hx | Habs _ | Habs _];
      try (exfalso; exact (Habs y Hy Hid)).
    rewrite Hsplit in *. split.
    + apply isPokemonSelected_false_iff. intros p Hp Hp'.
      rewrite map_app in Hnd. simpl in Hnd. apply NoDup_remove_2 in Hnd.
      apply Hnd. rewrite <- map_app, Hx, <- Hp'. apply in_map. exact Hp.
    + rewrite !length_app. simpl. lia.
  - intros Hsel Hlt. pose proof (proj1 (isPokemonSelected_false_iff _ _) Hsel)
      as Habs.
    apply toggled_absent in Ht; [|exact Habs].
    destruct (Nat.ltb_spec (List.length (selectedPokemon s)) 6); [|lia].
    subst sel'. split.
    + apply isPokemonSelected_iff. exists e. split; [|reflexivity].
      apply in_or_app. right. left. reflexivity.
    + rewrite length_app. simpl. lia.
Qed.

Lemma togglePokemon_flips_isPokemonSelected_witness :
  let s := with_selectedPokemon [bulbasaur; charmander] initial in
  NoDup (map id (selectedPokemon s)) /\
  isPokemonSelected bulbasaur
    (selectedPokemon (exec (togglePokemon_call bulbasaur) s)) = false /\
  isPokemonSelected squirtle
    (selectedPokemon (exec (togglePokemon_call squirtle) s)) = true.
Proof.
  cbv zeta.
  assert (Hnd : NoDup (map id (selectedPokemon
                  (with_selectedPokemon [bulbasaur; charmander] initial)))).
  { simpl. repeat constructor; simpl; intuition discriminate. }
  split; [exact Hnd|]. split.
  - exact (proj1 (proj1 (togglePokemon_flips_isPokemonSelected
                           _ bulbasaur Hnd) eq_refl)).
  - refine (proj1 (proj2 (togglePokemon_flips_isPokemonSelected
                            _ squirtle Hnd) eq_refl _)).
    simpl. lia.
Defined.

(** X8. A call of [togglePokemon(e)] changes the answer of
    [isPokemonSelected] for no entry with another id, and keeps the
    entries with another id in the order they had. *)
Theorem togglePokemon_keeps_other_entries (s : State)
    (e other : CatalogEntry) :
  id other <> id e ->
  let sel := selectedPokemon s in
  let sel' := selectedPokemon (exec (togglePokemon_call e) s) in
  isPokemonSelected other sel' = isPokemonSelected other sel /\
  filter (fun p => negb (Z.eqb (id p) (id e))) sel' =
  filter (fun p => negb (Z.eqb (id p) (id e))) sel.
Proof.
  intros Hother. cbv zeta.
  destruct (togglePokemon_call_toggled e s) as [warned Ht].
  set (sel' := selectedPokemon (exec (togglePokemon_call e) s)) in *.
  clearbody sel'.
  assert (Hx : forall x, id x = id e ->
                         Z.eqb (id x) (id other) = false /\
                         negb (Z.eqb (id x) (id e)) = false).
  { intros x Hid. split.
    - apply Z.eqb_neq. congruence.
    - rewrite (proj2 (Z.eqb_eq _ _) Hid). reflexivity. }
  destruct Ht as [l1 x l2 Hsplit Hl1 Hid | Habs _ | Habs _].
  - rewrite Hsplit. destruct (Hx x Hid) as [H1 H2]. split.
    + unfold isPokemonSelected. rewrite !existsb_app. simpl.
      rewrite H1. reflexivity.
    + rewrite !filter_app. simpl. rewrite H2. reflexivity.
  - destruct (Hx e eq_refl) as [H1 H2]. split.
    + unfold isPokemonSelected. rewrite existsb_app. simpl.
      rewrite H1. rewrite !orb_false_r. reflexivity.
    + rewrite filter_app. simpl. rewrite H2. apply app_nil_r.
  - split; reflexivity.
Qed.

Lemma togglePokemon_keeps_other_entries_witness :
  let s := with_selectedPokemon [bulbasaur; ivysaur; charmander] initial in
  id charmander <> id ivysaur /\
  isPokemonSelected charmander
    (selectedPokemon (exec (togglePokemon_call ivysaur) s)) = true.
Proof.
  cbv zeta.
  assert (H : id charmander <> id ivysaur) by discriminate.
  split; [exact H|].
  rewrite (proj1 (togglePokemon_keeps_other_entries
                    (with_selectedPokemon [bulbasaur; ivysaur; charmander]
                                          initial)
                    ivysaur charmander H)).
  reflexivity.
Defined.

(** X9. Every click ends with a render of the selection it leaves, also
    when the click was refused: the click sends one detail request for
    each entry now selected, in selection order and after the warning if
    there is one, sets [loading] and leaves exactly one more call
    suspended, waiting for those entries.  When the click leaves nothing
    selected it sends nothing, leaves [loading] as it was and suspends
    nothing. *)
Theorem click_renders_the_selection (p : Page) (e : CatalogEntry) :
  let p' := step (Click e) p in
  let s := component p in
  let s' := component p' in
  let sel' := selectedPokemon s' in
  (exists warning,
     (warning = [] \/ warning = [Alert capacityWarning]) /\
     events_since s s' = warning ++ map (fun q => Fetch (url q)) sel') /\
  (sel' <> [] ->
   loading s' = true /\ suspended p' = suspended p ++ [AwaitDetails sel']) /\
  (sel' = [] ->
   loading s' = loading s /\ suspended p' = suspended p).
Proof.
  cbv zeta. simpl.
  destruct (togglePokemon_call_full e (component p))
    as (sel' & warned & Ht & ->). cbv zeta.
  set (s1 := if warned
             then with_log (log (component p) ++ [Alert capacityWarning])
                           (component p)
             else with_selectedPokemon sel' (component p)).
  assert (H1 : selectedPokemon s1 = sel' /\ loading s1 = loading (component p)
               /\ log s1 = log (component p) ++
                           (if warned then [Alert capacityWarning] else [])).
  { subst s1. destruct warned.
    - inversion Ht; subst. repeat split.
    - repeat split. cbn. symmetry. apply app_nil_r. }
  destruct H1 as (Hsel & Hload & Hlog).
  destruct sel' as [|q sel']; cbn [List.length Nat.eqb component suspended].
  - rewrite Hsel. split; [|split].
    + exists (if warned then [Alert capacityWarning] else []). split.
      * destruct warned; auto.
      * rewrite app_nil_r. apply events_since_app. exact Hlog.
    + intros H. congruence.
    + intros _. split; [exact Hload | reflexivity].
  - cbn [selectedPokemon with_log with_loading]. rewrite Hsel.
    split; [|split].
    + exists (if warned then [Alert capacityWarning] else []). split.
      * destruct warned; auto.
      * apply events_since_app. cbn. rewrite Hlog, <- app_assoc.
        reflexivity.
    + intros _. split; reflexivity.
    + intros H. discriminate.
Qed.

Lemma click_renders_the_selection_witness :
  let p := {| component := with_selectedPokemon firstSix initial;
              suspended := [] |} in
  selectedPokemon (component (step (Click squirtle) p)) <> [] /\
  loading (component (step (Click squirtle) p)) = true /\
  suspended (step (Click squirtle) p) = [AwaitDetails firstSix].
Proof.
  cbv zeta.
  set (p := {| component := with_selectedPokemon firstSix initial;
               suspended := [] |}).
  assert (Hne : selectedPokemon (component (step (Click squirtle) p)) <> [])
    by (vm_compute; discriminate).
  split; [exact Hne|].
  destruct (proj1 (proj2 (click_renders_the_selection p squirtle)) Hne)
    as [Hloading Hsuspended].
  split; [exact Hloading|]. rewrite Hsuspended. vm_compute. reflexivity.
Defined.

(** ** Drawing *)

Lemma datasets_from_shape l i ds :
  datasets_from i l = Some ds ->
  List.length ds = List.length l /\
  map backgroundColor ds =
    map (fun k => nth (k mod List.length chartColors) chartColors "")
        (seq i (List.length l)) /\
  map borderColor ds =
    map (fun k => replace (nth (k mod List.length chartColors) chartColors "")
                          "0.7" "1")
        (seq i (List.length l)).
Proof.
  revert i ds. induction l as [|d l IH]; intros i ds H; simpl in H.
  - inversion H. repeat split.
  - destruct d as [pokemon|]; [|discriminate].
    destruct (datasets_from (S i) l) as [ds'|] eqn:Hds; [|discriminate].
    inversion H; subst ds. destruct (IH (S i) ds' Hds) as (Hlen & Hbg & Hbd).
    simpl. rewrite Hlen, Hbg, Hbd. repeat split.
Qed.

(** One to six datasets get a colour of their own each. *)
Lemma palette_distinct n :
  n <= 6 ->
  NoDup (map (fun k => nth (k mod List.length chartColors) chartColors "")
             (seq 0 n)) /\
  NoDup (map (fun k => replace (nth (k mod List.length chartColors)
                                    chartColors "") "0.7" "1")
             (seq 0 n)).
Proof.
  intros Hn.
  do 7 (destruct n as [|n];
        [split; vm_compute;
         repeat (constructor; [simpl; intuition discriminate|]);
         constructor|]).
  lia.
Qed.

Lemma radar_tidy l ds :
  datasets_from 0 l = Some ds -> 1 <= List.length l <= 6 ->
  tidyChart (radar ds).
Proof.
  intros Hds Hlen. destruct (datasets_from_shape l 0 ds Hds)
    as (Hl & Hbg & Hbd).
  unfold tidyChart. cbn [radar chart_type r_beginAtZero r_max chart_data
                         labels datasets].
  rewrite Hl, Hbg, Hbd.
  destruct (palette_distinct (List.length l)) as [H1 H2]; [lia|].
  repeat split; try assumption; lia.
Qed.



Lemma remove_nth_In {A} k (l : list A) x :
  In x (remove_nth k l) -> In x l.
Proof.
  revert k. induction l as [|y l IH]; intros k H.
  - destruct k; exact H.
  - destruct k as [|k]; simpl in H.
    + right. exact H.
    + destruct H as [H|H]; [left; exact H | right; exact (IH k H)].
Qed.

Lemma quiet_no_ChartNew evs c config :
  Forall (fun ev => chartEvent ev = false) evs ->
  In (ChartNew c config) evs -> False.
Proof.
  intros Hq Hin. rewrite Forall_forall in Hq. specialize (Hq _ Hin).
  discriminate.
Qed.

Lemma step_pageTidy a p : pageTidy p -> pageTidy (step a p).
Proof.
  intros (Hwf & Hsusp & Hlog).
  split; [apply step_wellFormed; exact Hwf|].
  destruct a as [|term|e|k response|k net]; simpl.
  - split.
    + intros requested Hin. apply in_app_or in Hin.
      destruct Hin as [Hin|[Hin|[]]]; [exact (Hsusp _ Hin) | discriminate].
    + intros c config Hin. cbn in Hin. apply in_app_or in Hin.
      destruct Hin as [Hin|[Hin|[]]]; [exact (Hlog _ _ Hin) | discriminate].
  - split; [exact Hsusp | exact Hlog].
  - destruct (togglePokemon_call_full e (component p))
      as (sel' & warned & Ht & ->). cbv zeta.
    pose proof (toggled_wellFormed _ _ _ _ Ht Hwf) as [Hlen _].
    assert (Hlog1 : forall c config,
               In (ChartNew c config)
                  (log (if warned
                        then with_log (log (component p) ++
                                       [Alert capacityWarning]) (component p)
                        else with_selectedPokemon sel' (component p))) ->
               tidyChart config).
    { intros c config Hin. destruct warned; cbn in Hin.
      - apply in_app_or in Hin.
        destruct Hin as [Hin|[Hin|[]]]; [exact (Hlog _ _ Hin) | discriminate].
      - exact (Hlog _ _ Hin). }
    destruct sel' as [|q sel']; cbn [List.length Nat.eqb component suspended].
    + split; [exact Hsusp | exact Hlog1].
    + split.
      * intros requested Hin. apply in_app_or in Hin.
        destruct Hin as [Hin|[Hin|[]]]; [exact (Hsusp _ Hin)|].
        inversion Hin; subst requested. simpl in *. lia.
      * intros c config Hin. cbn [log with_log] in Hin.
        apply in_app_or in Hin. destruct Hin as [Hin|Hin].
        -- apply (Hlog1 c config). exact Hin.
        -- exfalso. exact (quiet_no_ChartNew _ _ _ (fetchEvents_quiet _) Hin).
  - destruct (nth_error (suspended p) k) as [[|requested]|] eqn:Hk;
      try (split; [exact Hsusp | exact Hlog]).
    cbn [component suspended]. split.
    + intros requested Hin. apply Hsusp. exact (remove_nth_In _ _ _ Hin).
    + intros c config Hin. destruct response as [results|]; cbn in Hin.
      * exact (Hlog _ _ Hin).
      * apply in_app_or in Hin.
        destruct Hin as [Hin|[Hin|[]]]; [exact (Hlog _ _ Hin) | discriminate].
  - destruct (nth_error (suspended p) k) as [[|requested]|] eqn:Hk;
      try (split; [exact Hsusp | exact Hlog]).
    cbn [component suspended]. split.
    + intros r Hin. apply Hsusp. exact (remove_nth_In _ _ _ Hin).
    + pose proof (Hsusp requested (nth_error_In _ _ Hk)) as Hreq.
      pose proof (errors_quiet net requested 0) as Hq.
      fold (mapIndexed (errors_of net) requested) in Hq.
      intros c config. unfold run_task. rewrite updateChart_settle_run.
      cbv zeta.
      destruct (datasets_from 0 (mapIndexed (details_of net) requested))
        as [ds|] eqn:Hds.
      * unfold drawn. cbn [log]. intros Hin.
        apply in_app_or in Hin. destruct Hin as [Hin|[Hin|[]]].
        -- destruct (chartInstance (component p)).
           ++ apply in_app_or in Hin. destruct Hin as [Hin|[Hin|[]]];
                [|discriminate].
              apply in_app_or in Hin. destruct Hin as [Hin|Hin];
                [exact (Hlog _ _ Hin)|].
              exfalso. exact (quiet_no_ChartNew _ _ _ Hq Hin).
           ++ apply in_app_or in Hin. destruct Hin as [Hin|Hin];
                [exact (Hlog _ _ Hin)|].
              exfalso. exact (quiet_no_ChartNew _ _ _ Hq Hin).
        -- inversion Hin; subst config.
           apply (radar_tidy _ _ Hds).
           unfold mapIndexed. rewrite mapIndexed_from_length. exact Hreq.
      * cbn. intros Hin. apply in_app_or in Hin.
        destruct Hin as [Hin|[Hin|[]]]; [|discriminate].
        apply in_app_or in Hin. destruct Hin as [Hin|Hin];
          [exact (Hlog _ _ Hin)|].
        exfalso. exact (quiet_no_ChartNew _ _ _ Hq Hin).
Qed.

Lemma run_pageTidy actions p : pageTidy p -> pageTidy (run actions p).
Proof.
  revert p. induction actions as [|a actions IH]; intros p H; simpl.
  - exact H.
  - apply IH. apply step_pageTidy. exact H.
Qed.

(** X11. Whatever the user and the network do from the freshly loaded
    page, every chart the page ever creates is a radar scaled from 0 to
    150 with the six axis labels and between one and six datasets, no
    two of them with the same background colour or the same border
    colour; the page never draws an empty chart. *)
Theorem every_chart_is_tidy (actions : list Action) (c : Chart)
    (config : ChartConfig) :
  In (ChartNew c config) (log (component (run actions start))) ->
  chart_type config = "radar" /\
  r_beginAtZero config = true /\
  r_max config = 150%Z /\
  labels (chart_data config) =
    ["HP"; "Ataque"; "Defensa"; "Ataque Esp."; "Defensa Esp."; "Velocidad"] /\
  1 <= List.length (datasets (chart_data config)) <= 6 /\
  NoDup (map backgroundColor (datasets (chart_data config))) /\
  NoDup (map borderColor (datasets (chart_data config))).
Proof.
  intros Hin.
  destruct (run_pageTidy actions start) as (_ & _ & Hlog).
  { split; [split; [simpl; lia | constructor]|].
    split; intros; contradiction. }
  exact (Hlog c config Hin).
Qed.

Lemma every_chart_is_tidy_witness :
  let s := component (run [Click bulbasaur; DetailsSettle 0 netUp] start) in
  exists c config,
    In (ChartNew c config) (log s) /\
    1 <= List.length (datasets (chart_data config)) <= 6.
Proof.
  cbv zeta.
  assert (H : exists c config,
             In (ChartNew c config)
                (log (component (run [Click bulbasaur; DetailsSettle 0 netUp]
                                     start)))).
  { vm_compute. eexists. eexists. right. left. reflexivity. }
  destruct H as (c & config & Hin). exists c, config.
  split; [exact Hin|].
  exact (proj1 (proj2 (proj2 (proj2 (proj2
           (every_chart_is_tidy [Click bulbasaur; DetailsSettle 0 netUp]
                                c config Hin)))))).
Defined.

(** ** The tags of the selected entries *)








(** ** The labels of the chart *)






(** ** More on the search filter *)








(** Only typing changes [searchTerm]. *)
Lemma step_searchTerm a p :
  (forall term, a <> Input term) ->
  searchTerm (component (step a p)) = searchTerm (component p).
Proof.
  intros Ha. destruct a as [|term|e|k response|k net]; simpl.
  - reflexivity.
  - exfalso. exact (Ha term eq_refl).
  - unfold togglePokemon_call, bind.
    destruct (togglePokemon_selection_spec e (component p))
      as (sel' & warned & _ & ->).
    rewrite updateChart_call_run.
    destruct warned;
      match goal with
      | |- context [if ?b then _ else _] => destruct b
      end; reflexivity.
  - destruct (nth_error (suspended p) k) as [[|requested]|];
      try reflexivity.
    destruct response; reflexivity.
  - destruct (nth_error (suspended p) k) as [[|requested]|];
      try reflexivity.
    simpl. unfold run_task. rewrite updateChart_settle_run. cbv zeta.
    destruct (datasets_from 0 (mapIndexed (details_of net) requested));
      reflexivity.
Qed.

(** X16. The list of the markup changes only when the user types or the
    catalog arrives: mounting, clicking and the answers to detail
    requests, failed or not, leave [pokemonData], [searchTerm] and so the
    filtered list as they were. *)
Theorem list_changes_only_by_typing_or_loading (a : Action) (p : Page) :
  (forall term, a <> Input term) ->
  (forall k results, a <> CatalogSettles k (Some results)) ->
  let s := component p in
  let s' := component (step a p) in
  pokemonData s' = pokemonData s /\
  searchTerm s' = searchTerm s /\
  filteredPokemon (pokemonData s') (searchTerm s') =
    filteredPokemon (pokemonData s) (searchTerm s).
Proof.
  intros Hinput Hcatalog. cbv zeta.
  assert (Hdata : pokemonData (component (step a p)) =
                  pokemonData (component p)).
  { destruct (step_pokemonData a p) as [H | (k & results & Ha & _)].
    - exact H.
    - exfalso. exact (Hcatalog k results Ha). }
  rewrite Hdata, (step_searchTerm a p Hinput). repeat split.
Qed.

Lemma list_changes_only_by_typing_or_loading_witness :
  let p := run [Mount;
                CatalogSettles 0 (Some [ {| api_name := "bulbasaur";
                                            api_url := "u1" |};
                                         {| api_name := "ivysaur";
                                            api_url := "u2" |} ]);
                Input "saur"] start in
  (forall term, Click bulbasaur <> Input term) /\
  filteredPokemon (pokemonData (component (step (Click bulbasaur) p)))
                  (searchTerm (component (step (Click bulbasaur) p)))
  = filteredPokemon (pokemonData (component p)) (searchTerm (component p)).
Proof.
  cbv zeta.
  assert (H1 : forall term, Click bulbasaur <> Input term)
    by (intros; discriminate).
  assert (H2 : forall k results,
             Click bulbasaur <> CatalogSettles k (Some results))
    by (intros; discriminate).
  split; [exact H1|].
  exact (proj2 (proj2 (list_changes_only_by_typing_or_loading
                         (Click bulbasaur) _ H1 H2))).
Defined.

(** ** Where the selection comes from *)

Lemma toggled_In e sel sel' warned x :
  toggled e sel sel' warned -> In x sel' -> In x sel \/ x = e.
Proof.
  intros Ht Hx. destruct Ht as [l1 y l2 Hsplit _ _ | _ _ | _ _].
  - left. rewrite Hsplit. apply in_app_or in Hx. apply in_or_app.
    destruct Hx; [left | right; right]; assumption.
  - apply in_app_or in Hx. destruct Hx as [Hx|[Hx|[]]]; auto.
  - left. exact Hx.
Qed.

Lemma run_selection_from_clicks actions p x :
  In x (selectedPokemon (component (run actions p))) ->
  In x (selectedPokemon (component p)) \/ In (Click x) actions.
Proof.
  revert p. induction actions as [|a actions IH]; intros p H; simpl in *.
  - left. exact H.
  - destruct (IH _ H) as [Hx | Hx]; [|right; right; exact Hx].
    destruct (step_selection a p) as [Hsame | (e & w & -> & Ht)].
    + left. rewrite <- Hsame. exact Hx.
    + destruct (toggled_In _ _ _ _ _ Ht Hx) as [Hin | ->].
      * left. exact Hin.
      * right. left. reflexivity.
Qed.

(** X17. Whatever the user and the network do from the freshly loaded
    page, every selected entry is an entry the user clicked: the page
    puts nothing into the selection by itself, and the answers of the
    network never touch it. *)
Theorem selection_comes_from_clicks (actions : list Action)
    (x : CatalogEntry) :
  In x (selectedPokemon (component (run actions start))) ->
  In (Click x) actions.
Proof.
  intros H. destruct (run_selection_from_clicks actions start x H) as [[]|Hx].
  exact Hx.
Qed.

Lemma selection_comes_from_clicks_witness :
  In charmander
     (selectedPokemon
        (component (run [Click bulbasaur; Click charmander;
                         DetailsSettle 0 netDown] start))) /\
  In (Click charmander)
     [Click bulbasaur; Click charmander; DetailsSettle 0 netDown].
Proof.
  assert (H : In charmander
                 (selectedPokemon
                    (component (run [Click bulbasaur; Click charmander;
                                     DetailsSettle 0 netDown] start)))).
  { vm_compute. right. left. reflexivity. }
  split; [exact H|].
  exact (selection_comes_from_clicks _ charmander H).
Defined.

(** ** The pictures *)

Lemma string_append_inj_l prefix s t :
  String.append prefix s = String.append prefix t -> s = t.
Proof.
  induction prefix as [|c prefix IH]; simpl; intros H; [exact H|].
  inversion H. apply IH. assumption.
Qed.

Lemma string_length_append s t :
  String.length (String.append s t) = String.length s + String.length t.
Proof.
  induction s as [|c s IH]; simpl; [reflexivity|]. rewrite IH. reflexivity.
Qed.

Lemma string_append_inj_r s t suffix :
  String.append s suffix = String.append t suffix -> s = t.
Proof.
  revert t. induction s as [|c s IH]; intros [|d t] H; simpl in H.
  - reflexivity.
  - apply (f_equal String.length) in H. simpl in H.
    rewrite string_length_append in H. lia.
  - apply (f_equal String.length) in H. simpl in H.
    rewrite string_length_append in H. lia.
  - inversion H. f_equal. apply IH. assumption.
Qed.

Lemma numberToString_inj a b :
  numberToString a = numberToString b -> a = b.
Proof.
  unfold numberToString. intros H.
  apply (f_equal NilZero.int_of_string) in H.
  assert (Hnonnil : forall z, Z.to_int z <> Decimal.Pos Decimal.Nil /\
                              Z.to_int z <> Decimal.Neg Decimal.Nil).
  { intros [|q|q]; simpl; split; try discriminate;
      intros E; inversion E as [E'];
      exact (DecimalPos.Unsigned.to_uint_nonnil q E'). }
  rewrite !NilZero.isi in H by apply Hnonnil.
  inversion H. apply DecimalZ.to_int_inj. assumption.
Qed.

(** X18. Whatever the user and the network do from the freshly loaded
    page, the pictures of two different catalog entries have different
    addresses, and the address of an entry determines its id. *)
Theorem pictures_have_their_own_address (actions : list Action)
    (i j : nat) (p q : CatalogEntry) :
  let catalog := pokemonData (component (run actions start)) in
  nth_error catalog i = Some p ->
  nth_error catalog j = Some q ->
  spriteAddress p = spriteAddress q ->
  id p = id q /\ i = j.
Proof.
  cbv zeta. intros Hp Hq Haddr.
  assert (Hid : id p = id q).
  { unfold spriteAddress in Haddr.
    apply string_append_inj_l, string_append_inj_r in Haddr.
    apply numberToString_inj. exact Haddr. }
  split; [exact Hid|].
  pose proof (run_catalog_numbered actions start eq_refl) as Hnum.
  pose proof (numbered_NoDup
                (List.length (pokemonData (component (run actions start)))))
    as Hnd.
  rewrite <- Hnum in Hnd.
  apply (proj1 (NoDup_nth_error _) Hnd).
  - apply nth_error_Some. rewrite (map_nth_error id _ _ Hp). discriminate.
  - rewrite (map_nth_error id _ _ Hp), (map_nth_error id _ _ Hq), Hid.
    reflexivity.
Qed.

Lemma pictures_have_their_own_address_witness :
  let catalog :=
    pokemonData
      (component
         (run [Mount;
               CatalogSettles 0 (Some [ {| api_name := "bulbasaur";
                                           api_url := "u1" |};
                                        {| api_name := "ivysaur";
                                           api_url := "u2" |} ])] start)) in
  nth_error catalog 1 = Some {| id := 2; name := "ivysaur"; url := "u2" |} /\
  spriteAddress {| id := 2; name := "ivysaur"; url := "u2" |} =
    "https://raw.githubusercontent.com/PokeAPI/sprites/master/sprites/pokemon/2.png"
  /\ 1 = 1.
Proof.
  cbv zeta.
  assert (H : nth_error
                (pokemonData
                   (component
                      (run [Mount;
                            CatalogSettles 0
                              (Some [ {| api_name := "bulbasaur";
                                         api_url := "u1" |};
                                      {| api_name := "ivysaur";
                                         api_url := "u2" |} ])] start))) 1
              = Some {| id := 2; name := "ivysaur"; url := "u2" |})
    by reflexivity.
  split; [exact H|]. split; [reflexivity|].
  exact (proj2 (pictures_have_their_own_address _ 1 1 _ _ H H eq_refl)).
Defined.

(** ** Taking entries out of the selection *)

Lemma filter_keeps_all {A} (f : A -> bool) l :
  (forall x, In x l -> f x = true) -> filter f l = l.
Proof.
  intros H. induction l as [|x l IH]; simpl; [reflexivity|].
  rewrite (H x (or_introl eq_refl)), IH; [reflexivity|].
  intros y Hy. apply H. right. exact Hy.
Qed.

Lemma filter_swap {A} (f g : A -> bool) l :
  filter f (filter g l) = filter g (filter f l).
Proof.
  induction l as [|x l IH]; simpl; [reflexivity|].
  destruct (f x) eqn:Hf, (g x) eqn:Hg; simpl; rewrite ?Hf, ?Hg, IH;
    reflexivity.
Qed.

Lemma NoDup_map_filter {A B} (h : A -> B) (f : A -> bool) l :
  NoDup (map h l) -> NoDup (map h (filter f l)).
Proof.
  induction l as [|x l IH]; simpl; intros H; [exact H|].
  inversion H as [|? ? Hx Hl]; subst.
  destruct (f x); simpl; [|exact (IH Hl)].
  constructor; [|exact (IH Hl)].
  intros Hin. apply Hx. apply in_map_iff in Hin.
  destruct Hin as (y & Hy & Hin). apply filter_In in Hin.
  rewrite <- Hy. apply in_map. tauto.
Qed.

(** In a selection with distinct ids, clicking a selected entry leaves
    exactly the entries with another id. *)
Lemma toggle_selected_filters e s :
  NoDup (map id (selectedPokemon s)) ->
  isPokemonSelected e (selectedPokemon s) = true ->
  selectedPokemon (exec (togglePokemon_call e) s) =
  filter (otherId e) (selectedPokemon s).
Proof.
  intros Hnd Hsel.
  destruct (togglePokemon_call_toggled e s) as [warned Ht].
  set (sel' := selectedPokemon (exec (togglePokemon_call e) s)) in *.
  clearbody sel'.
  apply isPokemonSelected_iff in Hsel. destruct Hsel as (y & Hy & Hid).
  destruct Ht as [l1 x l2 Hsplit Hl1 Hx | Habs _ | Habs _];
    try (exfalso; exact (Habs y Hy Hid)).
  rewrite Hsplit in *. clear Hsplit.
  rewrite map_app in Hnd. simpl in Hnd. apply NoDup_remove_2 in Hnd.
  rewrite <- map_app in Hnd.
  rewrite filter_app. simpl. unfold otherId at 2.
  rewrite (proj2 (Z.eqb_eq _ _) Hx). simpl. rewrite <- filter_app.
  symmetry. apply filter_keeps_all. intros p Hp. unfold otherId.
  apply negb_true_iff, Z.eqb_neq. intros Hpe. apply Hnd.
  rewrite Hx, <- Hpe. apply in_map. exact Hp.
Qed.

Lemma isPokemonSelected_filter_other a b sel :
  id b <> id a ->
  isPokemonSelected b (filter (otherId a) sel) = isPokemonSelected b sel.
Proof.
  intros Hab. unfold isPokemonSelected.
  induction sel as [|p sel IH]; simpl; [reflexivity|].
  unfold otherId at 1. destruct (Z.eqb_spec (id p) (id a)) as [Hpa|Hpa]; simpl.
  - rewrite IH. destruct (Z.eqb_spec (id p) (id b)); [congruence|reflexivity].
  - rewrite IH. reflexivity.
Qed.

(** X19. In a selection with distinct ids, clicking a selected entry
    takes out exactly that entry: what remains are the entries with
    another id, in their order.  So taking two selected entries out gives
    the same selection in whichever order they are clicked. *)
Theorem removals_commute (s : State) (a b : CatalogEntry) :
  NoDup (map id (selectedPokemon s)) ->
  isPokemonSelected a (selectedPokemon s) = true ->
  isPokemonSelected b (selectedPokemon s) = true ->
  id a <> id b ->
  selectedPokemon (exec (togglePokemon_call a) s) =
    filter (otherId a) (selectedPokemon s) /\
  selectedPokemon
    (exec (togglePokemon_call b) (exec (togglePokemon_call a) s)) =
  selectedPokemon
    (exec (togglePokemon_call a) (exec (togglePokemon_call b) s)).
Proof.
  intros Hnd Ha Hb Hab.
  pose proof (toggle_selected_filters a s Hnd Ha) as Ha1.
  pose proof (toggle_selected_filters b s Hnd Hb) as Hb1.
  split; [exact Ha1|].
  rewrite (toggle_selected_filters b (exec (togglePokemon_call a) s)).
  - rewrite (toggle_selected_filters a (exec (togglePokemon_call b) s)).
    + rewrite Ha1, Hb1. apply filter_swap.
    + rewrite Hb1. apply NoDup_map_filter. exact Hnd.
    + rewrite Hb1, isPokemonSelected_filter_other by exact Hab. exact Ha.
  - rewrite Ha1. apply NoDup_map_filter. exact Hnd.
  - rewrite Ha1, isPokemonSelected_filter_other by congruence. exact Hb.
Qed.

Lemma removals_commute_witness :
  let s := with_selectedPokemon firstSix initial in
  NoDup (map id (selectedPokemon s)) /\
  id ivysaur <> id charmeleon /\
  selectedPokemon
    (exec (togglePokemon_call charmeleon)
          (exec (togglePokemon_call ivysaur) s)) =
  selectedPokemon
    (exec (togglePokemon_call ivysaur)
          (exec (togglePokemon_call charmeleon) s)).
Proof.
  cbv zeta.
  assert (Hnd : NoDup (map id (selectedPokemon
                                 (with_selectedPokemon firstSix initial)))).
  { simpl. repeat constructor; simpl; intuition discriminate. }
  assert (Hab : id ivysaur <> id charmeleon) by discriminate.
  split; [exact Hnd|]. split; [exact Hab|].
  exact (proj2 (removals_commute _ ivysaur charmeleon Hnd
                                 eq_refl eq_refl Hab)).
Defined.
